(** * Scaffolder action helpers: repo URL parsing, Octokit options,
      executable bits and directory serialization

    A shallow embedding of
    [packages/backend/src/plugins/scaffolder/actions/helpers.ts].

    JavaScript strings are [string]; [null] and [undefined] are both [None]
    of an [option]; a [Buffer] is a list of bytes; a thrown value is a value
    of [Thrown]; a function that may throw returns a [result].  The platform
    and third-party primitives the module calls ([URL], the integrations
    registry, [globby], [fs], [resolveSafeChildPath], the credentials
    provider) are fields of records passed to the functions, so every
    theorem holds whatever those primitives do, unless it names an
    assumption about them. *)

From Stdlib Require Import ZArith List String Ascii Bool Lia Permutation.
From Stdlib.Strings Require Import Byte.
Import ListNotations.

Open Scope string_scope.
Open Scope Z_scope.

(** ** Thrown values and results *)

(** An [Error] object: [name], [message] and the optional [code] that
    Node's system errors carry. *)
Record JsError := mkJsError {
  name : string;
  message : string;
  code : option string
}.

(** What a [catch] clause can receive: an error object or anything else. *)
Inductive Thrown :=
| ThrownError (e : JsError)
| ThrownValue (v : string).

(** [new InputError(msg)] of [@backstage/errors]. *)
Definition InputError (msg : string) : Thrown :=
  ThrownError (mkJsError "InputError" msg None).

(** [isError] of [@backstage/errors]: an object with string [name] and
    [message]. *)
Definition isError (e : Thrown) : bool :=
  match e with
  | ThrownError _ => true
  | ThrownValue _ => false
  end.

(** [e.code === c]. *)
Definition code_is (e : Thrown) (c : string) : bool :=
  match e with
  | ThrownError err =>
      match code err with
      | Some c' => String.eqb c' c
      | None => false
      end
  | ThrownValue _ => false
  end.

(** Template-literal interpolation of a caught value. *)
Definition Thrown_toString (e : Thrown) : string :=
  match e with
  | ThrownError err =>
      if String.eqb (name err) "" then message err
      else if String.eqb (message err) "" then name err
      else name err ++ ": " ++ message err
  | ThrownValue v => v
  end.

Inductive result (A : Type) :=
| Ok (a : A)
| Throw (e : Thrown).
Arguments Ok {A} a.
Arguments Throw {A} e.

Definition bind {A B} (r : result A) (k : A -> result B) : result B :=
  match r with
  | Ok a => k a
  | Throw e => Throw e
  end.

Declare Scope js_scope.
Delimit Scope js_scope with js.
Notation "x <- r ;; k" := (bind r (fun x => k))
  (at level 61, r at next level, right associativity) : js_scope.
Notation "r ;;; k" := (bind r (fun _ => k))
  (at level 61, right associativity) : js_scope.
Open Scope js_scope.

(** JavaScript truthiness of a [string | null | undefined]. *)
Definition truthy (v : option string) : bool :=
  match v with
  | Some s => negb (String.eqb s "")
  | None => false
  end.

(** A [string | null | undefined] narrowed by a truthiness test. *)
Definition asTruthy (v : option string) : option string :=
  match v with
  | Some s => if String.eqb s "" then None else Some s
  | None => None
  end.

(** ** URLs *)

(** The part of a parsed [URL] the module reads: [host], the serialized
    form and the query pairs in order. *)
Record URL := mkURL {
  url_host : string;
  url_href : string;
  searchParams : list (string * string)
}.

(** [URLSearchParams.get]: the first value stored under the key. *)
Fixpoint searchParams_get (ps : list (string * string)) (key : string)
  : option string :=
  match ps with
  | [] => None
  | (k, v) :: ps' => if String.eqb k key then Some v else searchParams_get ps' key
  end.

Definition get (u : URL) (key : string) : option string :=
  searchParams_get (searchParams u) key.

(** ** Repo URL parsing *)

Record RepoSpec := mkRepoSpec {
  (* declared [string]; the value is whatever [searchParams.get('repo')]
     gave, since the non-null assertion is erased at run time *)
  repo : option string;
  host : string;
  owner : option string;
  organization : option string;
  workspace : option string;
  project : option string
}.

Record ScmIntegration := mkScmIntegration {
  type : string
}.

Record GithubIntegrationConfig := mkGithubIntegrationConfig {
  apiBaseUrl : option string
}.

Record ScmIntegrationRegistry := mkRegistry {
  byHost : string -> option ScmIntegration;
  github_byHost : string -> option GithubIntegrationConfig
}.

Fixpoint checkRequiredParams (repoUrl : URL) (params : list string)
  : result unit :=
  match params with
  | [] => Ok tt
  | p :: rest =>
      if negb (truthy (get repoUrl p)) then
        Throw (InputError ("Invalid repo URL passed to publisher: "
                           ++ url_href repoUrl ++ ", missing " ++ p))
      else checkRequiredParams repoUrl rest
  end.

(** [type === c] in a [case] of the [switch]. *)
Definition type_is (ty : option string) (c : string) : bool :=
  match ty with
  | Some t => String.eqb t c
  | None => false
  end.

Section RepoUrl.

(** [new URL(s)]: the platform's URL parser. *)
Variable new_URL : string -> result URL.

Definition parseRepoUrl (repoUrl : string)
           (integrations : ScmIntegrationRegistry) : result RepoSpec :=
  match new_URL ("https://" ++ repoUrl) with
  | Throw error =>
      Throw (InputError ("Invalid repo URL passed to publisher, got "
                         ++ repoUrl ++ ", " ++ Thrown_toString error))
  | Ok parsed =>
      let host := url_host parsed in
      let owner := get parsed "owner" in
      let organization := get parsed "organization" in
      let workspace := get parsed "workspace" in
      let project := get parsed "project" in
      let type := option_map type (byHost integrations host) in
      if negb (truthy type) then
        Throw (InputError ("No matching integration configuration for host "
                           ++ host
                           ++ ", please check your integrations config"))
      else
        let repo := get parsed "repo" in
        (if type_is type "bitbucket" then
           (if String.eqb host "www.bitbucket.org"
            then checkRequiredParams parsed ["workspace"]
            else Ok tt) ;;;
           checkRequiredParams parsed ["project"; "repo"]
         else if type_is type "gitlab" then
           (* project is the projectID, and if defined, owner and repo
              won't be needed. *)
           if negb (truthy project)
           then checkRequiredParams parsed ["owner"; "repo"]
           else Ok tt
         else if type_is type "gerrit" then
           checkRequiredParams parsed ["repo"]
         else
           checkRequiredParams parsed ["repo"; "owner"]) ;;;
        Ok (mkRepoSpec repo host owner organization workspace project)
  end.

End RepoUrl.

(** ** Octokit options *)

Definition DEFAULT_TIMEOUT_MS : Z := 60000.

Record RequestOptions := mkRequestOptions {
  timeout : Z
}.

Record OctokitOptions := mkOctokitOptions {
  auth : string;
  baseUrl : option string;
  previews : list string;
  request : option RequestOptions
}.

Record GithubCredentials := mkGithubCredentials {
  cred_token : option string
}.

Record GithubCredentialsProvider := mkProvider {
  getCredentials : string -> result GithubCredentials
}.

Record GetOctokitOptionsArgs := mkArgs {
  arg_integrations : ScmIntegrationRegistry;
  arg_credentialsProvider : option GithubCredentialsProvider;
  arg_token : option string;
  arg_repoUrl : string
}.

(** Calls made to the credentials subsystem, in order. *)
Inductive Event :=
| EvFromIntegrations
| EvGetCredentials (url : string).

(** [encodeURIComponent] on a UTF-8 string: every byte outside the
    unreserved set becomes [%XX]. *)
Definition hexDigit (n : N) : ascii :=
  ascii_of_N (if (n <? 10)%N then 48 + n else 55 + n)%N.

Definition uriUnreserved (c : ascii) : bool :=
  let n := N_of_ascii c in
  ((65 <=? n) && (n <=? 90) || (97 <=? n) && (n <=? 122)
   || (48 <=? n) && (n <=? 57)
   || existsb (N.eqb n) [45; 95; 46; 33; 126; 42; 39; 40; 41])%N.

Fixpoint encodeURIComponent (s : string) : string :=
  match s with
  | EmptyString => EmptyString
  | String c rest =>
      if uriUnreserved c then String c (encodeURIComponent rest)
      else
        let n := N_of_ascii c in
        String "%" (String (hexDigit (n / 16)) (String (hexDigit (n mod 16))
                   (encodeURIComponent rest)))
  end.

(** String conversion of a [string | null] value. *)
Definition ToString (v : option string) : string :=
  match v with
  | Some s => s
  | None => "null"
  end.

Section Octokit.

Variable new_URL : string -> result URL.
(** [DefaultGithubCredentialsProvider.fromIntegrations]. *)
Variable fromIntegrations : ScmIntegrationRegistry -> GithubCredentialsProvider.

(** The result comes with the trace of calls made to the credentials
    subsystem. *)
Definition getOctokitOptions (options : GetOctokitOptionsArgs)
  : list Event * result OctokitOptions :=
  let integrations := arg_integrations options in
  let credentialsProvider := arg_credentialsProvider options in
  let repoUrl := arg_repoUrl options in
  let token := arg_token options in
  match parseRepoUrl new_URL repoUrl integrations with
  | Throw e => ([], Throw e)
  | Ok spec =>
      let repo := repo spec in
      let host := host spec in
      let requestOptions := {| timeout := DEFAULT_TIMEOUT_MS |} in
      match asTruthy (owner spec) with
      | None =>
          ([], Throw (InputError ("No owner provided for repo " ++ repoUrl)))
      | Some owner =>
          match github_byHost integrations host with
          | None =>
              ([], Throw (InputError ("No integration for host " ++ host)))
          | Some integrationConfig =>
              (* short circuit the `githubCredentialsProvider` if there is
                 a token provided by the caller already *)
              match asTruthy token with
              | Some token =>
                  ([], Ok {| auth := token;
                             baseUrl := apiBaseUrl integrationConfig;
                             previews := ["nebula-preview"];
                             request := Some requestOptions |})
              | None =>
                  let '(made, githubCredentialsProvider) :=
                    match credentialsProvider with
                    | Some p => ([], p)
                    | None =>
                        ([EvFromIntegrations], fromIntegrations integrations)
                    end in
                  let url := "https://" ++ host ++ "/"
                             ++ encodeURIComponent owner ++ "/"
                             ++ encodeURIComponent (ToString repo) in
                  ((made ++ [EvGetCredentials url])%list,
                   match getCredentials githubCredentialsProvider url with
                   | Throw e => Throw e
                   | Ok credentials =>
                       match asTruthy (cred_token credentials) with
                       | None =>
                           Throw (InputError
                                    ("No token available for host: " ++ host
                                     ++ ", with owner " ++ owner
                                     ++ ", and repo " ++ ToString repo))
                       | Some credentialProviderToken =>
                           Ok {| auth := credentialProviderToken;
                                 baseUrl := apiBaseUrl integrationConfig;
                                 previews := ["nebula-preview"];
                                 request := None |}
                       end
                   end)
              end
          end
      end
  end.

End Octokit.

(** ** Executable bits *)

(** The 32-bit signed conversion that [&] applies to its operands. *)
Definition ToInt32 (n : Z) : Z :=
  let m := n mod 2 ^ 32 in
  if m >=? 2 ^ 31 then m - 2 ^ 32 else m.

(** [fileMode] is an integral number or [undefined]. *)
Definition isExecutable (fileMode : option Z) : bool :=
  match fileMode with
  | None => false
  | Some fileMode =>
      if fileMode =? 0 then false
      else
        let executeBitMask := 0x49 (* 0o000111 *) in
        let res := Z.land (ToInt32 fileMode) (ToInt32 executeBitMask) in
        res >? 0
  end.

(** ** Directory serialization *)

Definition Buffer := list byte.

Record SerializedFile := mkSerializedFile {
  path : string;
  content : Buffer;
  executable : option bool;
  symlink : option bool
}.

(** The kinds an [fs.Dirent] distinguishes. *)
Inductive Dirent :=
| DFile
| DDirectory
| DSymbolicLink
| DBlockDevice
| DCharacterDevice
| DFIFO
| DSocket.

Definition isDirectory (d : Dirent) : bool :=
  match d with DDirectory => true | _ => false end.

Definition isSymbolicLink (d : Dirent) : bool :=
  match d with DSymbolicLink => true | _ => false end.

Record Stats := mkStats {
  mode : Z
}.

(** An entry of [globby]'s object mode. *)
Record Entry := mkEntry {
  entry_path : string;
  dirent : Dirent;
  stats : option Stats
}.

Record GlobbyOptions := mkGlobbyOptions {
  cwd : string;
  dot : bool;
  gitignore : option bool;
  followSymbolicLinks : bool;
  onlyFiles : bool;
  objectMode : bool;
  glob_stats : bool
}.

Record SerializeOptions := mkSerializeOptions {
  opt_gitignore : option bool;
  opt_globPatterns : option (list string)
}.

(** The file-system primitives, over one unchanged state of the disk. *)
Record FileSystem := mkFileSystem {
  globby : list string -> GlobbyOptions -> result (list Entry);
  fs_stat : string -> result Stats;
  fs_readlink : string -> result Buffer;
  fs_readFile : string -> result Buffer;
  resolveSafeChildPath : string -> string -> result string
}.

Definition DEFAULT_GLOB_PATTERNS : list string := ["./**"; "!.git"].

(** How a promise built with [Promise.all] settles.  When several of the
    promises reject, the one that rejects first in time decides the reason;
    the model keeps every candidate reason, in index order, and commits to
    none of them. *)
Inductive Settled (A : Type) :=
| Fulfilled (a : A)
| Rejected (reasons : list Thrown).
Arguments Fulfilled {A} a.
Arguments Rejected {A} reasons.

Fixpoint rejections {A} (ps : list (result A)) : list Thrown :=
  match ps with
  | [] => []
  | Ok _ :: ps' => rejections ps'
  | Throw e :: ps' => e :: rejections ps'
  end.

Fixpoint fulfilments {A} (ps : list (result A)) : list A :=
  match ps with
  | [] => []
  | Ok a :: ps' => a :: fulfilments ps'
  | Throw _ :: ps' => fulfilments ps'
  end.

Definition Promise_all {A} (ps : list (result A)) : Settled (list A) :=
  match rejections ps with
  | [] => Fulfilled (fulfilments ps)
  | rs => Rejected rs
  end.

(** [array.filter((_value, index) => filterMap[index])]. *)
Definition filterByIndex {T} (array : list T) (filterMap : list bool) : list T :=
  map fst (filter snd (combine array filterMap)).

Definition asyncFilter {T} (array : list T) (callback : T -> result bool)
  : Settled (list T) :=
  match Promise_all (map callback array) with
  | Rejected rs => Rejected rs
  | Fulfilled filterMap => Fulfilled (filterByIndex array filterMap)
  end.

Section Serialize.

Variable fs : FileSystem.

(** The callback given to [asyncFilter]. *)
Definition validCallback (sourcePath : string) (e : Entry) : result bool :=
  if isDirectory (dirent e) then Ok false
  else if negb (isSymbolicLink (dirent e)) then Ok true
  else
    safePath <- resolveSafeChildPath fs sourcePath (entry_path e) ;;
    (* we only want files that don't exist *)
    match fs_stat fs safePath with
    | Ok _ => Ok false
    | Throw e => Ok (isError e && code_is e "ENOENT")
    end.

(** The task handed to the limiter for one entry. *)
Definition readContent (sourcePath : string) (e : Entry) : result Buffer :=
  absFilePath <- resolveSafeChildPath fs sourcePath (entry_path e) ;;
  if isSymbolicLink (dirent e) then fs_readlink fs absFilePath
  else fs_readFile fs absFilePath.

(** The callback given to [valid.map]; the limiter delays the task and
    leaves its result alone. *)
Definition materialize (sourcePath : string) (e : Entry)
  : result SerializedFile :=
  content <- readContent sourcePath e ;;
  Ok (mkSerializedFile
        (entry_path e)
        content
        (Some (isExecutable (option_map mode (stats e))))
        (Some (isSymbolicLink (dirent e)))).

Definition serializeDirectoryContents (sourcePath : string)
           (options : option SerializeOptions)
  : Settled (list SerializedFile) :=
  let globPatterns :=
    match option_map opt_globPatterns options with
    | Some (Some ps) => ps
    | _ => DEFAULT_GLOB_PATTERNS
    end in
  let gitignore :=
    match options with
    | Some o => opt_gitignore o
    | None => None
    end in
  match globby fs globPatterns
               {| cwd := sourcePath;
                  dot := true;
                  gitignore := gitignore;
                  followSymbolicLinks := false;
                  onlyFiles := false;
                  objectMode := true;
                  glob_stats := true |}
  with
  | Throw e => Rejected [e]
  | Ok paths =>
      match asyncFilter paths (validCallback sourcePath) with
      | Rejected rs => Rejected rs
      | Fulfilled valid => Promise_all (map (materialize sourcePath) valid)
      end
  end.

End Serialize.

(** ** A URL parser for concrete inputs *)

(** Parses the [https://host?key=value&...] fragment of the URL syntax the
    way the platform's parser does; anything outside the fragment is
    refused here.  It serves to run the functions above on concrete
    inputs. *)
Module SimpleURL.

Fixpoint splitAt (c : ascii) (s : string) : string * option string :=
  match s with
  | EmptyString => (EmptyString, None)
  | String d rest =>
      if Ascii.eqb c d then (EmptyString, Some rest)
      else let '(a, b) := splitAt c rest in (String d a, b)
  end.

Fixpoint splitAll (c : ascii) (s : string) (acc : string) : list string :=
  match s with
  | EmptyString => [acc]
  | String d rest =>
      if Ascii.eqb c d then acc :: splitAll c rest ""
      else splitAll c rest (acc ++ String d "")
  end.

Definition pair (s : string) : string * string :=
  let '(k, v) := splitAt "=" s in
  (k, match v with Some v => v | None => "" end).

Definition query (q : string) : list (string * string) :=
  map pair (filter (fun s => negb (String.eqb s "")) (splitAll "&" q "")).

Fixpoint allChars (p : ascii -> bool) (s : string) : bool :=
  match s with
  | EmptyString => true
  | String c rest => p c && allChars p rest
  end.

(** Hosts are dot-separated words of lower-case letters. *)
Definition hostChar (c : ascii) : bool :=
  let n := N_of_ascii c in
  ((97 <=? n) && (n <=? 122) || (n =? 46))%N.

Definition hostOk (h : string) : bool :=
  allChars hostChar h
  && forallb (fun w => negb (String.eqb w "")) (splitAll "." h "").

Definition queryChar (c : ascii) : bool :=
  let n := N_of_ascii c in
  ((97 <=? n) && (n <=? 122) || (65 <=? n) && (n <=? 90)
   || (48 <=? n) && (n <=? 57)
   || existsb (N.eqb n) [45; 46; 61; 38; 95])%N.

Definition invalid : result URL :=
  Throw (ThrownError (mkJsError "TypeError" "Invalid URL"
                                (Some "ERR_INVALID_URL"))).

Definition stripPrefix (p s : string) : option string :=
  if String.prefix p s
  then Some (String.substring (String.length p)
                              (String.length s - String.length p) s)
  else None.

Definition parse (s : string) : result URL :=
  match stripPrefix "https://" s with
  | None => invalid
  | Some rest =>
      let '(h, q) := splitAt "?" rest in
      if negb (hostOk h) then invalid
      else
        match q with
        | None => Ok (mkURL h ("https://" ++ h ++ "/") [])
        | Some q =>
            if allChars queryChar q
            then Ok (mkURL h ("https://" ++ h ++ "/?" ++ q) (query q))
            else invalid
        end
  end.

End SimpleURL.

(** ** Concrete registries and trees *)

Module Sample.

(** A registry that knows a GitHub, a GitLab, a Bitbucket and a Gerrit
    host. *)
Definition integrations : ScmIntegrationRegistry :=
  mkRegistry
    (fun h =>
       if String.eqb h "github.com" then Some (mkScmIntegration "github")
       else if String.eqb h "gitlab.com" then Some (mkScmIntegration "gitlab")
       else if String.eqb h "www.bitbucket.org"
            then Some (mkScmIntegration "bitbucket")
       else if String.eqb h "gerrit.example.com"
            then Some (mkScmIntegration "gerrit")
       else None)
    (fun h =>
       if String.eqb h "github.com"
       then Some (mkGithubIntegrationConfig (Some "https://api.github.com"))
       else None).

Definition provider : GithubCredentialsProvider :=
  mkProvider (fun _ => Ok (mkGithubCredentials (Some "app-token"))).

Definition notAllowed : Thrown :=
  ThrownError
    (mkJsError "NotAllowedError"
       "Relative path is not allowed to refer to a directory outside its parent"
       None).

Definition systemError (c : string) : Thrown :=
  ThrownError (mkJsError "Error" c (Some c)).

Definition bytes (s : string) : Buffer := list_byte_of_string s.

(** A path resolver that refuses paths climbing out with [..]. *)
Definition resolve (base p : string) : result string :=
  if String.prefix ".." p then Throw notAllowed
  else Ok (base ++ "/" ++ p).

(** The tree [/ws]: a regular file, an executable, a directory, a
    dangling link, a link to the regular file and a link whose target
    cannot be examined. *)
Definition entries : list Entry :=
  (* modes 0o100644, 0o040755, 0o100755 and 0o120777 *)
  [ mkEntry "README.md" DFile (Some (mkStats 33188));
    mkEntry "bin" DDirectory (Some (mkStats 16877));
    mkEntry "bin/run.sh" DFile (Some (mkStats 33261));
    mkEntry "broken" DSymbolicLink (Some (mkStats 41471));
    mkEntry "alias" DSymbolicLink (Some (mkStats 41471));
    mkEntry "locked" DSymbolicLink (Some (mkStats 41471)) ].

Definition tree (listing : list Entry) : FileSystem :=
  mkFileSystem
    (fun _ _ => Ok listing)
    (fun p =>
       if String.eqb p "/ws/broken" then Throw (systemError "ENOENT")
       else if String.eqb p "/ws/locked" then Throw (systemError "EACCES")
       else Ok (mkStats 33188))
    (fun p =>
       if String.eqb p "/ws/broken" then Ok (bytes "missing/target")
       else if String.eqb p "/ws/alias" then Ok (bytes "README.md")
       else if String.eqb p "/ws/locked" then Ok (bytes "secret/file")
       else Throw (systemError "EINVAL"))
    (fun p =>
       if String.eqb p "/ws/README.md" then Ok (bytes "# readme")
       else if String.eqb p "/ws/bin/run.sh" then Ok (bytes "#!/bin/sh")
       else Throw (systemError "ENOENT"))
    resolve.



End Sample.

(** ** The workflow writer *)

(** What [yaml.stringify] is given: strings, booleans and maps with their
    keys in order. *)
#[warnings="-register-all"] Inductive YamlValue :=
| YString (s : string)
| YBool (b : bool)
| YMap (fields : list (string * YamlValue)).

Definition workflow_id : string := "workflow:write".

Definition defaultWorkflow : YamlValue :=
  YMap
    [ ("name", YString "Auth :: Deploy :: Dev");
      ("on", YString "workflow_dispatch");
      ("jobs",
       YMap
         [ ("deploy-dev-preview",
            YMap
              [ ("uses", YString "./.github/workflows/deploy-service.yml");
                ("with",
                 YMap
                   [ ("github-environment", YString "DevPreview");
                     ("stage",
                      YString
                        "$(echo ${{ github.actor }} | awk '{print tolower($0)}')");
                     ("service-name", YString "@shieldpay/auth");
                     ("service-path", YString "backend/services/auth");
                     ("lint-code", YBool false);
                     ("test-code", YBool false);
                     ("github-author", YString "${{ github.actor }}");
                     ("install-everything", YBool true) ]);
                ("secrets",
                 YMap
                   [ ("aws-role-arn",
                      YString "${{ secrets.DEPLOYMENT_ROLE_ARN }}");
                     ("aws-account-id",
                      YString "${{ secrets.AWS_ACCOUNT_ID }}") ]) ]) ]) ].

(** The part of the action context the handler can reach. *)
Record HandlerContext := mkHandlerContext {
  workspacePath : string;
  input_repoUrl : option string
}.

(** What the handler does to the outside, in order. *)
Inductive WorkflowEffect :=
| LogWrite (chunk : string)
| WriteFile (file : string) (data : string).

(** The primitives of the handler. *)
Record WorkflowEnv := mkWorkflowEnv {
  yaml_stringify : YamlValue -> string;
  wf_resolveSafeChildPath : string -> string -> result string;
  fs_writeFile : string -> string -> result unit
}.

(** The [handler] of the action that [createWorkflowAction] builds. *)
Definition handler (env : WorkflowEnv) (ctx : HandlerContext)
  : list WorkflowEffect * result unit :=
  let logged := [LogWrite "Writing catalog-info.yaml"] in
  let path := ".gitub/worflows/test.yaml" in
  match wf_resolveSafeChildPath env (workspacePath ctx) path with
  | Throw e => (logged, Throw e)
  | Ok file =>
      let data := yaml_stringify env defaultWorkflow in
      ((logged ++ [WriteFile file data])%list, fs_writeFile env file data)
  end.

(** * Vocabulary of the properties *)

(** One of the user, group and other execute bits is set. *)
Definition hasExecuteBit (m : Z) : bool :=
  Z.testbit m 6 || Z.testbit m 3 || Z.testbit m 0.

(** A query parameter is given when it has a non-empty value. *)
Definition given (u : URL) (p : string) : bool := truthy (get u p).

(** A query parameter is present when the query holds its key. *)
Definition present (u : URL) (p : string) : bool :=
  match get u p with
  | Some _ => true
  | None => false
  end.

(** The mandatory parameters of a provider type, as the specification lists
    them: project and repo for bitbucket, plus workspace on the public
    Bitbucket host; owner and repo for gitlab unless a project is there;
    repo for gerrit; repo and owner for any other provider. *)
Definition mandatoryParams (type host : string) (hasProject : bool)
  : list string :=
  if String.eqb type "bitbucket" then
    ["project"; "repo"]
      ++ (if String.eqb host "www.bitbucket.org" then ["workspace"] else [])
  else if String.eqb type "gitlab" then
    if hasProject then [] else ["owner"; "repo"]
  else if String.eqb type "gerrit" then ["repo"]
  else ["repo"; "owner"].

(** The checks of the [switch], one list per provider type. *)
Definition providerChecks (parsed : URL) (type : option string) : result unit :=
  if type_is type "bitbucket" then
    (if String.eqb (url_host parsed) "www.bitbucket.org"
     then checkRequiredParams parsed ["workspace"]
     else Ok tt) ;;;
    checkRequiredParams parsed ["project"; "repo"]
  else if type_is type "gitlab" then
    if negb (truthy (get parsed "project"))
    then checkRequiredParams parsed ["owner"; "repo"]
    else Ok tt
  else if type_is type "gerrit" then
    checkRequiredParams parsed ["repo"]
  else
    checkRequiredParams parsed ["repo"; "owner"].

(** What a callback of [asyncFilter] decides for an element when it does
    not throw. *)
Definition keeps {T} (callback : T -> result bool) (x : T) : bool :=
  match callback x with
  | Ok b => b
  | Throw _ => false
  end.

(** Two settlements agree up to the order of the list they carry. *)
Definition sameOutcome {A} (s1 s2 : Settled (list A)) : Prop :=
  match s1, s2 with
  | Fulfilled l1, Fulfilled l2 => Permutation l1 l2
  | Rejected r1, Rejected r2 => Permutation r1 r2
  | _, _ => False
  end.

(** The part of [serializeDirectoryContents] that follows the glob. *)
Definition serializeEntries (fs : FileSystem) (sourcePath : string)
           (paths : list Entry) : Settled (list SerializedFile) :=
  match asyncFilter paths (validCallback fs sourcePath) with
  | Rejected rs => Rejected rs
  | Fulfilled valid => Promise_all (map (materialize fs sourcePath) valid)
  end.

(** The call to [globby] that [serializeDirectoryContents] makes. *)
Definition listing (fs : FileSystem) (sourcePath : string)
           (options : option SerializeOptions) : result (list Entry) :=
  globby fs
    match option_map opt_globPatterns options with
    | Some (Some ps) => ps
    | _ => DEFAULT_GLOB_PATTERNS
    end
    {| cwd := sourcePath;
       dot := true;
       gitignore := match options with
                    | Some o => opt_gitignore o
                    | None => None
                    end;
       followSymbolicLinks := false;
       onlyFiles := false;
       objectMode := true;
       glob_stats := true |}.

(** The failure of a [stat] says that the path does not exist. *)
Definition isENOENT (t : Thrown) : Prop :=
  exists err, t = ThrownError err /\ code err = Some "ENOENT".

(** A symbolic link whose target is missing: its path resolves and [stat]
    fails on it with [ENOENT]. *)
Definition targetMissing (fs : FileSystem) (sourcePath : string) (e : Entry)
  : bool :=
  match resolveSafeChildPath fs sourcePath (entry_path e) with
  | Ok p =>
      match fs_stat fs p with
      | Ok _ => false
      | Throw t => code_is t "ENOENT"
      end
  | Throw _ => false
  end.

(** The entries the serializer is to return: everything that is neither a
    directory nor a symbolic link, and the dangling symbolic links. *)
Definition retained (fs : FileSystem) (sourcePath : string) (e : Entry)
  : bool :=
  match dirent e with
  | DDirectory => false
  | DSymbolicLink => targetMissing fs sourcePath e
  | _ => true
  end.

(** The read that the materialization makes for an entry, once its path
    has resolved. *)
Definition readOf (fs : FileSystem) (e : Entry) (abs : string) : result Buffer :=
  if isSymbolicLink (dirent e) then fs_readlink fs abs else fs_readFile fs abs.

(** The record of an entry: its path as listed, the bytes read at its
    resolved path (the link target for a symbolic link, the file content
    otherwise), the executable flag of its mode and its symlink flag. *)
Definition recordOf (fs : FileSystem) (sourcePath : string)
           (e : Entry) (f : SerializedFile) : Prop :=
  path f = entry_path e
  /\ symlink f = Some (isSymbolicLink (dirent e))
  /\ executable f = Some (isExecutable (option_map mode (stats e)))
  /\ exists abs,
      resolveSafeChildPath fs sourcePath (entry_path e) = Ok abs
      /\ readOf fs e abs = Ok (content f).

(** Two views of one state of the disk: the primitives answer alike. *)
Definition sameDisk (fs1 fs2 : FileSystem) : Prop :=
  (forall p, fs_stat fs1 p = fs_stat fs2 p)
  /\ (forall p, fs_readlink fs1 p = fs_readlink fs2 p)
  /\ (forall p, fs_readFile fs1 p = fs_readFile fs2 p)
  /\ (forall base p,
         resolveSafeChildPath fs1 base p = resolveSafeChildPath fs2 base p).

(** Two listings of one tree: the same entries in any order, or the same
    failure. *)
Definition sameListing (r1 r2 : result (list Entry)) : Prop :=
  match r1, r2 with
  | Ok l1, Ok l2 => Permutation l1 l2
  | Throw e1, Throw e2 => e1 = e2
  | _, _ => False
  end.

(** The first parameter of a list that has no non-empty value. *)
Definition firstMissing (u : URL) (ps : list string) : option string :=
  find (fun p => negb (given u p)) ps.

(** The message of the error that reports a missing parameter. *)
Definition missingMessage (u : URL) (p : string) : string :=
  "Invalid repo URL passed to publisher: " ++ url_href u ++ ", missing " ++ p.

(** The parameters of a provider type in the order in which they are
    checked. *)
Definition checkOrder (type host : string) (hasProject : bool) : list string :=
  if String.eqb type "bitbucket" then
    (if String.eqb host "www.bitbucket.org" then ["workspace"] else [])
      ++ ["project"; "repo"]
  else if String.eqb type "gitlab" then
    if hasProject then [] else ["owner"; "repo"]
  else if String.eqb type "gerrit" then ["repo"]
  else ["repo"; "owner"].

(** The descriptor read off a parsed URL. *)
Definition descriptorOf (parsed : URL) : RepoSpec :=
  {| repo := get parsed "repo";
     host := url_host parsed;
     owner := get parsed "owner";
     organization := get parsed "organization";
     workspace := get parsed "workspace";
     project := get parsed "project" |}.

(** The URL under which credentials are requested. *)
Definition credentialsUrl (spec : RepoSpec) (owner : string) : string :=
  "https://" ++ host spec ++ "/" ++ encodeURIComponent owner ++ "/"
  ++ encodeURIComponent (ToString (repo spec)).

(** The file system [fs] with another listing of its tree. *)
Definition relist (fs : FileSystem) (paths : list Entry) : FileSystem :=
  {| globby := fun _ _ => Ok paths;
     fs_stat := fs_stat fs;
     fs_readlink := fs_readlink fs;
     fs_readFile := fs_readFile fs;
     resolveSafeChildPath := resolveSafeChildPath fs |}.

Definition notDirectory (e : Entry) : bool := negb (isDirectory (dirent e)).

(** The file writes among the effects of the handler. *)
Definition fileWrites (effects : list WorkflowEffect) : list (string * string) :=
  flat_map (fun x => match x with
                     | WriteFile file data => [(file, data)]
                     | LogWrite _ => []
                     end) effects.

(** The provider that [getOctokitOptions] asks: the caller's, or else the
    default one of the registry. *)
Definition chosenProvider
           (fromIntegrations : ScmIntegrationRegistry -> GithubCredentialsProvider)
           (options : GetOctokitOptionsArgs) : GithubCredentialsProvider :=
  match arg_credentialsProvider options with
  | Some p => p
  | None => fromIntegrations (arg_integrations options)
  end.

(** The calls that reach the credentials subsystem when the provider is
    asked for [url]. *)
Definition providerCalls (options : GetOctokitOptionsArgs) (url : string)
  : list Event :=
  (match arg_credentialsProvider options with
   | Some _ => []
   | None => [EvFromIntegrations]
   end ++ [EvGetCredentials url])%list.




(** * Properties *)

(** ** Executable bits *)

Lemma ToInt32_mod (n : Z) : ToInt32 n mod 2 ^ 32 = n mod 2 ^ 32.
Proof.
  unfold ToInt32.
  destruct (n mod 2 ^ 32 >=? 2 ^ 31).
  - replace (n mod 2 ^ 32 - 2 ^ 32) with (n mod 2 ^ 32 + (-1) * 2 ^ 32) by ring.
    rewrite Z.mod_add by lia. apply Z.mod_mod. lia.
  - apply Z.mod_mod. lia.
Qed.

Lemma ToInt32_low_bits (n i : Z) :
  0 <= i < 32 -> Z.testbit (ToInt32 n) i = Z.testbit n i.
Proof.
  intros Hi.
  rewrite <- (Z.mod_pow2_bits_low (ToInt32 n) 32 i) by lia.
  rewrite ToInt32_mod.
  apply Z.mod_pow2_bits_low. lia.
Qed.

(** The bits of the mask [0o111]. *)
Lemma mask_bits (i : Z) :
  0 <= i ->
  Z.testbit 73 i = ((i =? 0) || (i =? 3) || (i =? 6)).
Proof.
  intros Hi.
  destruct (Z_lt_le_dec i 7) as [Hlt | Hge].
  - assert (i = 0 \/ i = 1 \/ i = 2 \/ i = 3 \/ i = 4 \/ i = 5 \/ i = 6)
      as Hcases by lia.
    repeat (destruct Hcases as [-> | Hcases]; [reflexivity |]).
    subst i. reflexivity.
  - rewrite Z.bits_above_log2; [| lia | simpl; lia].
    repeat (rewrite (proj2 (Z.eqb_neq _ _)) by lia). reflexivity.
Qed.

(** The wrap-around of [&] does not reach the mask. *)
Lemma land_mask_ToInt32 (m : Z) :
  Z.land (ToInt32 m) (ToInt32 73) = Z.land m 73.
Proof.
  change (ToInt32 73) with 73.
  apply Z.bits_inj'. intros i Hi.
  rewrite !Z.land_spec, mask_bits by assumption.
  destruct (Z_lt_le_dec i 32) as [Hlt | Hge].
  - rewrite ToInt32_low_bits by lia. reflexivity.
  - repeat (rewrite (proj2 (Z.eqb_neq i _)) by lia).
    simpl. rewrite !andb_false_r. reflexivity.
Qed.

Lemma land_mask_pos (m : Z) :
  (Z.land m 73 >? 0) = hasExecuteBit m.
Proof.
  unfold hasExecuteBit.
  assert (0 <= Z.land m 73) as Hnn by (apply Z.land_nonneg; right; lia).
  destruct (Z.testbit m 6 || Z.testbit m 3 || Z.testbit m 0) eqn:Hbits.
  - assert (Z.land m 73 <> 0) as Hne.
    { intros Hz.
      assert (forall i, 0 <= i -> Z.testbit m i && Z.testbit 73 i = false) as H0.
      { intros i Hi. rewrite <- Z.land_spec, Hz. apply Z.bits_0. }
      pose proof (H0 6 ltac:(lia)) as H6.
      pose proof (H0 3 ltac:(lia)) as H3.
      pose proof (H0 0 ltac:(lia)) as H00.
      change (Z.testbit 73 6) with true in H6.
      change (Z.testbit 73 3) with true in H3.
      change (Z.testbit 73 0) with true in H00.
      rewrite andb_true_r in H6, H3, H00.
      rewrite H6, H3, H00 in Hbits. discriminate. }
    apply Z.gtb_lt. lia.
  - apply orb_false_elim in Hbits as [Hbits H0].
    apply orb_false_elim in Hbits as [H6 H3].
    assert (Z.land m 73 = 0) as ->; [| reflexivity].
    apply Z.bits_inj'. intros i Hi.
    rewrite Z.land_spec, mask_bits, Z.bits_0 by assumption.
    destruct (Z.eqb_spec i 0) as [-> | _]; [rewrite H0; reflexivity |].
    destruct (Z.eqb_spec i 3) as [-> | _]; [rewrite H3; reflexivity |].
    destruct (Z.eqb_spec i 6) as [-> | _]; [rewrite H6; reflexivity |].
    apply andb_false_r.
Qed.

(** Claim C6.  [isExecutable] answers [true] exactly for a defined file
    mode with one of the user, group or other execute bits (the bits of the
    octal mask [0o111]) set; [0o644] is not executable, [0o755] is, and an
    undefined mode is not. *)
Theorem isExecutable_iff_execute_bit :
  (forall fileMode : option Z,
      isExecutable fileMode = true <->
      exists m, fileMode = Some m /\ hasExecuteBit m = true)
  /\ (forall m, hasExecuteBit m = true <-> Z.land m 73 <> 0)
  /\ isExecutable (Some 420 (* 0o644 *)) = false
  /\ isExecutable (Some 493 (* 0o755 *)) = true
  /\ isExecutable None = false.
Proof.
  split; [| split; [| repeat split]].
  - intros [m |]; simpl.
    + rewrite land_mask_ToInt32, land_mask_pos.
      destruct (Z.eqb_spec m 0) as [-> | Hm].
      * split; [discriminate |].
        intros (m' & Heq & Hx). injection Heq as <-. discriminate.
      * split.
        -- intros Hx. exists m. split; [reflexivity | exact Hx].
        -- intros (m' & Heq & Hx). injection Heq as <-. exact Hx.
    + split; [discriminate |]. intros (m' & Heq & _). discriminate.
  - intros m. rewrite <- land_mask_pos.
    assert (0 <= Z.land m 73) by (apply Z.land_nonneg; right; lia).
    rewrite Z.gtb_lt. lia.
Qed.

(** ** Required query parameters *)

Lemma checkRequiredParams_cases (u : URL) (ps : list string) :
  checkRequiredParams u ps = Ok tt
  \/ exists msg, checkRequiredParams u ps = Throw (InputError msg).
Proof.
  induction ps as [| p ps IH]; simpl.
  - left. reflexivity.
  - destruct (truthy (get u p)); simpl.
    + exact IH.
    + right. eexists. reflexivity.
Qed.

Lemma checkRequiredParams_given (u : URL) (ps : list string) :
  Forall (fun p => given u p = true) ps ->
  checkRequiredParams u ps = Ok tt.
Proof.
  induction 1 as [| p ps Hp _ IH]; simpl.
  - reflexivity.
  - unfold given in Hp. rewrite Hp. exact IH.
Qed.

Lemma checkRequiredParams_missing (u : URL) (ps : list string) :
  Exists (fun p => given u p = false) ps ->
  exists msg, checkRequiredParams u ps = Throw (InputError msg).
Proof.
  induction 1 as [p ps Hp | p ps _ IH]; simpl.
  - unfold given in Hp. rewrite Hp. eexists. reflexivity.
  - destruct (truthy (get u p)); simpl.
    + exact IH.
    + eexists. reflexivity.
Qed.

Lemma parseRepoUrl_unfold new_URL repoUrl integrations parsed i :
  new_URL ("https://" ++ repoUrl) = Ok parsed ->
  byHost integrations (url_host parsed) = Some i ->
  type i <> "" ->
  parseRepoUrl new_URL repoUrl integrations =
  providerChecks parsed (Some (type i)) ;;;
  Ok (mkRepoSpec (get parsed "repo") (url_host parsed)
        (get parsed "owner") (get parsed "organization")
        (get parsed "workspace") (get parsed "project")).
Proof.
  intros Hurl Hhost Hty.
  unfold parseRepoUrl. rewrite Hurl, Hhost. simpl.
  apply String.eqb_neq in Hty. rewrite Hty. reflexivity.
Qed.

Lemma providerChecks_cases (parsed : URL) (type : option string) :
  providerChecks parsed type = Ok tt
  \/ exists msg, providerChecks parsed type = Throw (InputError msg).
Proof.
  unfold providerChecks.
  repeat match goal with
         | |- context [if ?b then _ else _] => destruct b
         end;
    try apply checkRequiredParams_cases; try (left; reflexivity).
  destruct (checkRequiredParams_cases parsed ["workspace"]) as [-> | (msg & ->)].
  - apply checkRequiredParams_cases.
  - right. exists msg. reflexivity.
Qed.

(** [providerChecks] passes exactly when every mandatory parameter is
    given. *)
Lemma providerChecks_mandatory (parsed : URL) (type : string) :
  let required :=
    mandatoryParams type (url_host parsed) (given parsed "project") in
  (Forall (fun p => given parsed p = true) required ->
   providerChecks parsed (Some type) = Ok tt)
  /\ (Exists (fun p => given parsed p = false) required ->
      exists msg, providerChecks parsed (Some type) = Throw (InputError msg)).
Proof.
  unfold mandatoryParams, providerChecks, type_is.
  destruct (String.eqb type "bitbucket").
  { destruct (String.eqb (url_host parsed) "www.bitbucket.org"); split.
    - intros Hall. apply Forall_app in Hall as [Hpr Hw].
      rewrite (checkRequiredParams_given _ _ Hw). cbn [bind].
      apply checkRequiredParams_given, Hpr.
    - intros Hex. apply Exists_app in Hex as [Hpr | Hw].
      + destruct (checkRequiredParams_cases parsed ["workspace"])
          as [-> | (msg & ->)]; cbn [bind].
        * apply checkRequiredParams_missing, Hpr.
        * exists msg. reflexivity.
      + destruct (checkRequiredParams_missing _ _ Hw) as (msg & ->).
        exists msg. reflexivity.
    - intros Hall. apply Forall_app in Hall as [Hpr _]. cbn [bind].
      apply checkRequiredParams_given, Hpr.
    - intros Hex. apply Exists_app in Hex as [Hpr | Hw].
      + cbn [bind]. apply checkRequiredParams_missing, Hpr.
      + inversion Hw. }
  destruct (String.eqb type "gitlab").
  { change (truthy (get parsed "project")) with (given parsed "project").
    destruct (given parsed "project"); simpl negb; split.
    - reflexivity.
    - intros Hex. inversion Hex.
    - apply checkRequiredParams_given.
    - apply checkRequiredParams_missing. }
  destruct (String.eqb type "gerrit"); split;
    first [apply checkRequiredParams_given | apply checkRequiredParams_missing].
Qed.

(** Every failure of [parseRepoUrl] is an [InputError]. *)
Lemma parseRepoUrl_throws_InputError new_URL repoUrl integrations e :
  parseRepoUrl new_URL repoUrl integrations = Throw e ->
  exists msg, e = InputError msg.
Proof.
  unfold parseRepoUrl.
  destruct (new_URL ("https://" ++ repoUrl)) as [parsed | err].
  2: { intros H. injection H as <-. eexists. reflexivity. }
  destruct (negb (truthy _)).
  { intros H. injection H as <-. eexists. reflexivity. }
  fold (providerChecks parsed
          (option_map type (byHost integrations (url_host parsed)))).
  destruct (providerChecks_cases parsed
              (option_map type (byHost integrations (url_host parsed))))
    as [-> | (msg & ->)]; simpl.
  - discriminate.
  - intros H. injection H as <-. exists msg. reflexivity.
Qed.

(** Claim C1, as amended.  For a URL that parses and a host whose provider
    type is known, [parseRepoUrl] returns the descriptor when every
    mandatory parameter of the provider type has a non-empty value, and
    fails with an [InputError] when one of them is absent or empty; a
    project supersedes owner and repo on gitlab only when it is non-empty. *)
Theorem parseRepoUrl_mandatory_params
        new_URL repoUrl integrations parsed i :
  new_URL ("https://" ++ repoUrl) = Ok parsed ->
  byHost integrations (url_host parsed) = Some i ->
  type i <> "" ->
  (Forall (fun p => given parsed p = true)
          (mandatoryParams (type i) (url_host parsed) (given parsed "project")) ->
   parseRepoUrl new_URL repoUrl integrations =
   Ok (mkRepoSpec (get parsed "repo") (url_host parsed)
         (get parsed "owner") (get parsed "organization")
         (get parsed "workspace") (get parsed "project")))
  /\ (Exists (fun p => given parsed p = false)
             (mandatoryParams (type i) (url_host parsed)
                              (given parsed "project")) ->
      exists msg,
        parseRepoUrl new_URL repoUrl integrations = Throw (InputError msg)).
Proof.
  intros Hurl Hhost Hty.
  rewrite (parseRepoUrl_unfold _ _ _ _ _ Hurl Hhost Hty).
  destruct (providerChecks_mandatory parsed (type i)) as [Hok Hbad].
  split.
  - intros Hall. rewrite (Hok Hall). reflexivity.
  - intros Hex. destruct (Hbad Hex) as (msg & ->).
    exists msg. reflexivity.
Qed.

(** On the public Bitbucket host workspace, project and repo together are
    enough, and dropping the workspace is refused. *)
Lemma parseRepoUrl_mandatory_params_witness :
  parseRepoUrl SimpleURL.parse "www.bitbucket.org?workspace=w&project=p&repo=r"
               Sample.integrations
  = Ok (mkRepoSpec (Some "r") "www.bitbucket.org" None None
          (Some "w") (Some "p"))
  /\ exists msg,
      parseRepoUrl SimpleURL.parse "www.bitbucket.org?project=p&repo=r"
                   Sample.integrations
      = Throw (InputError msg).
Proof.
  split.
  - apply (proj1 (parseRepoUrl_mandatory_params
                    SimpleURL.parse
                    "www.bitbucket.org?workspace=w&project=p&repo=r"
                    Sample.integrations
                    (mkURL "www.bitbucket.org"
                       "https://www.bitbucket.org/?workspace=w&project=p&repo=r"
                       [("workspace", "w"); ("project", "p"); ("repo", "r")])
                    (mkScmIntegration "bitbucket")
                    eq_refl eq_refl ltac:(discriminate))).
    repeat constructor.
  - apply (proj2 (parseRepoUrl_mandatory_params
                    SimpleURL.parse
                    "www.bitbucket.org?project=p&repo=r"
                    Sample.integrations
                    (mkURL "www.bitbucket.org"
                       "https://www.bitbucket.org/?project=p&repo=r"
                       [("project", "p"); ("repo", "r")])
                    (mkScmIntegration "bitbucket")
                    eq_refl eq_refl ltac:(discriminate))).
    apply Exists_cons_tl, Exists_cons_tl, Exists_cons_hd. reflexivity.
Defined.

(** Claim C1, as stated, fails: in [github.com?repo=&owner=y] both
    mandatory parameters of the provider are present in the query, and
    [parseRepoUrl] refuses the URL because [repo] is empty. *)
Lemma parseRepoUrl_present_but_empty :
  SimpleURL.parse "https://github.com?repo=&owner=y"
  = Ok (mkURL "github.com" "https://github.com/?repo=&owner=y"
          [("repo", ""); ("owner", "y")])
  /\ byHost Sample.integrations "github.com" = Some (mkScmIntegration "github")
  /\ Forall (fun p =>
               present (mkURL "github.com" "https://github.com/?repo=&owner=y"
                          [("repo", ""); ("owner", "y")]) p = true)
            (mandatoryParams "github" "github.com" false)
  /\ parseRepoUrl SimpleURL.parse "github.com?repo=&owner=y"
                  Sample.integrations
     = Throw (InputError
                "Invalid repo URL passed to publisher: https://github.com/?repo=&owner=y, missing repo").
Proof.
  repeat split.
  repeat constructor.
Qed.

(** Claim C7.  With a lookup that resolves [github.com] to a provider type
    other than bitbucket, gitlab and gerrit, and the URL parser reading
    host [github.com] and the query pairs repo=x, owner=y from
    [https://github.com?repo=x&owner=y], [parseRepoUrl] returns the
    descriptor with host [github.com], repo [x] and owner [y]. *)
Theorem parseRepoUrl_github_example new_URL integrations parsed i :
  new_URL "https://github.com?repo=x&owner=y" = Ok parsed ->
  url_host parsed = "github.com" ->
  searchParams parsed = [("repo", "x"); ("owner", "y")] ->
  byHost integrations "github.com" = Some i ->
  type i <> "" ->
  type i <> "bitbucket" -> type i <> "gitlab" -> type i <> "gerrit" ->
  parseRepoUrl new_URL "github.com?repo=x&owner=y" integrations
  = Ok (mkRepoSpec (Some "x") "github.com" (Some "y") None None None).
Proof.
  intros Hurl Hh Hq Hhost Hty Hb Hl Hg.
  rewrite <- Hh in Hhost.
  rewrite (parseRepoUrl_unfold new_URL _ integrations parsed i Hurl Hhost Hty).
  unfold providerChecks, type_is.
  apply String.eqb_neq in Hb, Hl, Hg. rewrite Hb, Hl, Hg.
  unfold checkRequiredParams, get. rewrite Hq, Hh. reflexivity.
Qed.

Lemma parseRepoUrl_github_example_witness :
  parseRepoUrl SimpleURL.parse "github.com?repo=x&owner=y" Sample.integrations
  = Ok (mkRepoSpec (Some "x") "github.com" (Some "y") None None None).
Proof.
  apply (parseRepoUrl_github_example
           SimpleURL.parse Sample.integrations
           (mkURL "github.com" "https://github.com/?repo=x&owner=y"
              [("repo", "x"); ("owner", "y")])
           (mkScmIntegration "github"));
    first [reflexivity | discriminate].
Defined.

(** Claim C10.  On a gitlab host, a URL with a non-empty project and no
    repo parameter is accepted, and the descriptor returned has no repo:
    the non-null assertion on the repo parameter is not checked. *)
Theorem parseRepoUrl_gitlab_project_without_repo
        new_URL repoUrl integrations parsed i :
  new_URL ("https://" ++ repoUrl) = Ok parsed ->
  byHost integrations (url_host parsed) = Some i ->
  type i = "gitlab" ->
  given parsed "project" = true ->
  get parsed "repo" = None ->
  exists spec,
    parseRepoUrl new_URL repoUrl integrations = Ok spec
    /\ repo spec = None
    /\ project spec = get parsed "project".
Proof.
  intros Hurl Hhost Hty Hproj Hrepo.
  assert (type i <> "") as Hne by (rewrite Hty; discriminate).
  rewrite (parseRepoUrl_unfold _ _ _ _ _ Hurl Hhost Hne).
  unfold providerChecks, type_is. rewrite Hty.
  unfold given in Hproj. rewrite Hproj. simpl.
  eexists. split; [reflexivity |]. simpl. split; [exact Hrepo | reflexivity].
Qed.

Lemma parseRepoUrl_gitlab_project_without_repo_witness :
  exists spec,
    parseRepoUrl SimpleURL.parse "gitlab.com?project=123" Sample.integrations
    = Ok spec
    /\ repo spec = None
    /\ project spec = Some "123".
Proof.
  apply (parseRepoUrl_gitlab_project_without_repo
           SimpleURL.parse "gitlab.com?project=123" Sample.integrations
           (mkURL "gitlab.com" "https://gitlab.com/?project=123"
              [("project", "123")])
           (mkScmIntegration "gitlab"));
    reflexivity.
Defined.

(** ** Octokit options with a caller's token *)

Lemma truthy_asTruthy (v : option string) :
  truthy v = match asTruthy v with Some _ => true | None => false end.
Proof.
  destruct v as [s |]; simpl; [| reflexivity].
  destruct (String.eqb s ""); reflexivity.
Qed.

(** Claim C4, as amended.  When the caller supplies a non-empty token the
    credentials subsystem is never consulted.  The repo URL is parsed and
    the owner and the GitHub integration of the host are looked up first:
    when all three are there the options returned hold the token as [auth],
    the integration's API base URL and a request timeout of 60000 ms;
    otherwise the call fails with an [InputError]. *)
Theorem getOctokitOptions_token_short_circuit
        new_URL fromIntegrations options tok :
  arg_token options = Some tok ->
  tok <> "" ->
  fst (getOctokitOptions new_URL fromIntegrations options) = []
  /\ (forall spec cfg,
         parseRepoUrl new_URL (arg_repoUrl options) (arg_integrations options)
         = Ok spec ->
         truthy (owner spec) = true ->
         github_byHost (arg_integrations options) (host spec) = Some cfg ->
         snd (getOctokitOptions new_URL fromIntegrations options)
         = Ok (mkOctokitOptions tok (apiBaseUrl cfg) ["nebula-preview"]
                 (Some (mkRequestOptions 60000))))
  /\ ((forall spec,
          parseRepoUrl new_URL (arg_repoUrl options) (arg_integrations options)
          = Ok spec ->
          truthy (owner spec) = false
          \/ github_byHost (arg_integrations options) (host spec) = None) ->
      exists msg,
        snd (getOctokitOptions new_URL fromIntegrations options)
        = Throw (InputError msg)).
Proof.
  intros Htok Hne.
  assert (asTruthy (arg_token options) = Some tok) as Htruthy.
  { rewrite Htok. simpl. apply String.eqb_neq in Hne. rewrite Hne. reflexivity. }
  unfold getOctokitOptions.
  destruct (parseRepoUrl new_URL (arg_repoUrl options) (arg_integrations options))
    as [spec | e] eqn:Hparse.
  - pose proof (truthy_asTruthy (owner spec)) as Htr.
    destruct (asTruthy (owner spec)) as [o |] eqn:Howner.
    + destruct (github_byHost (arg_integrations options) (host spec))
        as [cfg |] eqn:Hcfg.
      * rewrite Htruthy. simpl.
        split; [reflexivity |]. split.
        -- intros spec' cfg' Hs _ Hc. injection Hs as <-.
           rewrite Hcfg in Hc. injection Hc as <-. reflexivity.
        -- intros Hno. destruct (Hno spec eq_refl) as [Ho | Hc].
           ++ rewrite Htr in Ho. discriminate.
           ++ rewrite Hcfg in Hc. discriminate.
      * simpl. split; [reflexivity |]. split.
        -- intros spec' cfg' Hs _ Hc. injection Hs as <-.
           rewrite Hcfg in Hc. discriminate.
        -- intros _. eexists. reflexivity.
    + simpl. split; [reflexivity |]. split.
      * intros spec' cfg' Hs Ho _. injection Hs as <-.
        rewrite Htr in Ho. discriminate.
      * intros _. eexists. reflexivity.
  - simpl. split; [reflexivity |]. split.
    + intros spec cfg Hs. discriminate.
    + intros _. destruct (parseRepoUrl_throws_InputError _ _ _ _ Hparse)
        as (msg & ->).
      exists msg. reflexivity.
Qed.

Lemma getOctokitOptions_token_short_circuit_witness :
  getOctokitOptions SimpleURL.parse (fun _ => Sample.provider)
    (mkArgs Sample.integrations None (Some "tok") "github.com?repo=x&owner=y")
  = ([], Ok (mkOctokitOptions "tok" (Some "https://api.github.com")
               ["nebula-preview"] (Some (mkRequestOptions 60000)))).
Proof.
  pose proof (getOctokitOptions_token_short_circuit
                SimpleURL.parse (fun _ => Sample.provider)
                (mkArgs Sample.integrations None (Some "tok")
                        "github.com?repo=x&owner=y")
                "tok" eq_refl ltac:(discriminate)) as (Htrace & Hok & _).
  specialize (Hok (mkRepoSpec (Some "x") "github.com" (Some "y") None None None)
                  (mkGithubIntegrationConfig (Some "https://api.github.com"))
                  eq_refl eq_refl eq_refl).
  rewrite (surjective_pairing (getOctokitOptions _ _ _)), Htrace, Hok.
  reflexivity.
Defined.

(** Claim C4, as stated, fails: a token is supplied with
    [github.com?repo=x], and the call ends in an [InputError] for the
    missing owner instead of returning options. *)
Lemma getOctokitOptions_token_without_owner :
  getOctokitOptions SimpleURL.parse (fun _ => Sample.provider)
    (mkArgs Sample.integrations None (Some "tok") "github.com?repo=x")
  = ([], Throw (InputError
                  "Invalid repo URL passed to publisher: https://github.com/?repo=x, missing owner")).
Proof. reflexivity. Qed.

(** ** Promises and filters *)

Lemma filterByIndex_cons {T} (x : T) (xs : list T) (b : bool) (bs : list bool) :
  filterByIndex (x :: xs) (b :: bs) =
  if b then x :: filterByIndex xs bs else filterByIndex xs bs.
Proof. unfold filterByIndex. simpl. destruct b; reflexivity. Qed.

Lemma filterByIndex_keeps {T} (callback : T -> result bool) (array : list T) :
  rejections (map callback array) = [] ->
  filterByIndex array (fulfilments (map callback array))
  = filter (keeps callback) array.
Proof.
  induction array as [| x xs IH]; simpl; intros Hnil.
  - reflexivity.
  - unfold keeps at 1. destruct (callback x) as [b | e]; [| discriminate].
    rewrite filterByIndex_cons, (IH Hnil). reflexivity.
Qed.

Lemma asyncFilter_spec {T} (callback : T -> result bool) (array : list T) :
  asyncFilter array callback =
  match rejections (map callback array) with
  | [] => Fulfilled (filter (keeps callback) array)
  | rs => Rejected rs
  end.
Proof.
  unfold asyncFilter, Promise_all.
  destruct (rejections (map callback array)) eqn:Hrej.
  - rewrite (filterByIndex_keeps _ _ Hrej). reflexivity.
  - reflexivity.
Qed.

Lemma rejections_In {A B} (f : A -> result B) (l : list A) (r : Thrown) :
  In r (rejections (map f l)) <-> exists x, In x l /\ f x = Throw r.
Proof.
  induction l as [| a l IH]; simpl.
  - split; [intros [] | intros (x & [] & _)].
  - destruct (f a) as [b | e] eqn:Hfa; simpl; rewrite IH; split.
    + intros (x & Hx & Hfx). exists x. auto.
    + intros (x & [<- | Hx] & Hfx); [congruence | exists x; auto].
    + intros [<- | (x & Hx & Hfx)]; [exists a; auto | exists x; auto].
    + intros (x & [<- | Hx] & Hfx); [left; congruence | right; exists x; auto].
Qed.

Lemma rejections_nil {A B} (f : A -> result B) (l : list A) :
  (forall x, In x l -> exists b, f x = Ok b) ->
  rejections (map f l) = [].
Proof.
  intros Hall.
  destruct (rejections (map f l)) as [| r rs] eqn:Hrej; [reflexivity |].
  assert (In r (rejections (map f l))) as Hin by (rewrite Hrej; left; reflexivity).
  apply rejections_In in Hin as (x & Hx & Hfx).
  destruct (Hall x Hx) as (b & Hb). congruence.
Qed.

Lemma fulfilments_Forall2 {A B} (f : A -> result B) (l : list A) :
  rejections (map f l) = [] ->
  Forall2 (fun x y => f x = Ok y) l (fulfilments (map f l)).
Proof.
  induction l as [| a l IH]; simpl; intros Hnil.
  - constructor.
  - destruct (f a) as [b | e] eqn:Hfa; [| discriminate].
    constructor; [exact Hfa | exact (IH Hnil)].
Qed.

Lemma filter_Permutation {A} (p : A -> bool) (l l' : list A) :
  Permutation l l' -> Permutation (filter p l) (filter p l').
Proof.
  induction 1 as [| x l l' _ IH | x y l | l l' l'' _ IH1 _ IH2]; simpl.
  - constructor.
  - destruct (p x); [constructor |]; exact IH.
  - destruct (p x), (p y); try reflexivity. apply perm_swap.
  - etransitivity; eassumption.
Qed.

Lemma rejections_Permutation {A B} (f : A -> result B) (l l' : list A) :
  Permutation l l' ->
  Permutation (rejections (map f l)) (rejections (map f l')).
Proof.
  induction 1 as [| x l l' _ IH | x y l | l l' l'' _ IH1 _ IH2]; simpl.
  - constructor.
  - destruct (f x); [| constructor]; exact IH.
  - destruct (f x), (f y); try reflexivity. apply perm_swap.
  - etransitivity; eassumption.
Qed.

Lemma fulfilments_Permutation {A B} (f : A -> result B) (l l' : list A) :
  Permutation l l' ->
  Permutation (fulfilments (map f l)) (fulfilments (map f l')).
Proof.
  induction 1 as [| x l l' _ IH | x y l | l l' l'' _ IH1 _ IH2]; simpl.
  - constructor.
  - destruct (f x); [constructor |]; exact IH.
  - destruct (f x), (f y); try reflexivity. apply perm_swap.
  - etransitivity; eassumption.
Qed.

Lemma Promise_all_Permutation {A B} (f : A -> result B) (l l' : list A) :
  Permutation l l' ->
  sameOutcome (Promise_all (map f l)) (Promise_all (map f l')).
Proof.
  intros Hperm. unfold Promise_all.
  pose proof (rejections_Permutation f _ _ Hperm) as Hrej.
  pose proof (fulfilments_Permutation f _ _ Hperm) as Hful.
  destruct (rejections (map f l)) as [| r rs];
    destruct (rejections (map f l')) as [| r' rs']; simpl.
  - exact Hful.
  - apply Permutation_nil in Hrej. discriminate.
  - apply Permutation_sym, Permutation_nil in Hrej. discriminate.
  - exact Hrej.
Qed.

(** ** The filter of the serializer *)

Lemma serializeDirectoryContents_listing fs sourcePath options :
  serializeDirectoryContents fs sourcePath options =
  match listing fs sourcePath options with
  | Throw e => Rejected [e]
  | Ok paths => serializeEntries fs sourcePath paths
  end.
Proof. reflexivity. Qed.


Lemma Promise_all_rejected {A} (ps : list (result A)) :
  rejections ps <> [] -> Promise_all ps = Rejected (rejections ps).
Proof.
  unfold Promise_all. destruct (rejections ps); [congruence | reflexivity].
Qed.

Lemma Promise_all_inv {A} (ps : list (result A)) :
  (exists l, Promise_all ps = Fulfilled l
             /\ rejections ps = [] /\ l = fulfilments ps)
  \/ (exists rs, Promise_all ps = Rejected rs
                 /\ rs <> [] /\ rs = rejections ps).
Proof.
  unfold Promise_all. destruct (rejections ps) as [| r rs].
  - left. eexists. repeat split.
  - right. eexists. repeat split. discriminate.
Qed.

Lemma code_is_ENOENT (t : Thrown) :
  code_is t "ENOENT" = true <-> isENOENT t.
Proof.
  unfold isENOENT. destruct t as [err | v]; simpl.
  - destruct (code err) as [c |] eqn:Hc.
    + rewrite String.eqb_eq. split.
      * intros ->. exists err. split; [reflexivity | exact Hc].
      * intros (err' & Heq & Hc'). injection Heq as <-. congruence.
    + split; [discriminate |].
      intros (err' & Heq & Hc'). injection Heq as <-. congruence.
  - split; [discriminate |]. intros (err' & Heq & _). discriminate.
Qed.

Lemma isError_and_code (t : Thrown) (c : string) :
  isError t && code_is t c = code_is t c.
Proof. destruct t; reflexivity. Qed.

Lemma keeps_validCallback fs sourcePath e :
  keeps (validCallback fs sourcePath) e = retained fs sourcePath e.
Proof.
  unfold keeps, validCallback, retained, targetMissing.
  destruct (dirent e); simpl; try reflexivity.
  destruct (resolveSafeChildPath fs sourcePath (entry_path e)); simpl;
    [| reflexivity].
  destruct (fs_stat fs a); [reflexivity | apply isError_and_code].
Qed.

Lemma validCallback_Throw fs sourcePath e r :
  validCallback fs sourcePath e = Throw r ->
  dirent e = DSymbolicLink
  /\ resolveSafeChildPath fs sourcePath (entry_path e) = Throw r.
Proof.
  unfold validCallback.
  destruct (dirent e); simpl; try discriminate.
  destruct (resolveSafeChildPath fs sourcePath (entry_path e)); simpl.
  - destruct (fs_stat fs a); discriminate.
  - intros H. injection H as <-. split; reflexivity.
Qed.

(** Claim C3.  In the check of a symbolic link, a [stat] that fails with
    code [ENOENT] keeps the entry and a [stat] that fails in any other way
    drops it; the failure is not raised: when the filter phase rejects,
    every reason it can reject with is a failed path resolution. *)
Theorem stat_failure_in_filter fs sourcePath e safePath t :
  dirent e = DSymbolicLink ->
  resolveSafeChildPath fs sourcePath (entry_path e) = Ok safePath ->
  fs_stat fs safePath = Throw t ->
  (isENOENT t -> validCallback fs sourcePath e = Ok true)
  /\ (~ isENOENT t -> validCallback fs sourcePath e = Ok false)
  /\ (forall paths valid,
         In e paths ->
         asyncFilter paths (validCallback fs sourcePath) = Fulfilled valid ->
         (In e valid <-> isENOENT t))
  /\ (forall paths rs r,
         asyncFilter paths (validCallback fs sourcePath) = Rejected rs ->
         In r rs ->
         exists e',
           In e' paths
           /\ resolveSafeChildPath fs sourcePath (entry_path e') = Throw r).
Proof.
  intros Hlink Hsafe Hstat.
  assert (validCallback fs sourcePath e = Ok (code_is t "ENOENT")) as Hcb.
  { unfold validCallback. rewrite Hlink, Hsafe. simpl. rewrite Hstat.
    rewrite isError_and_code. reflexivity. }
  split; [| split; [| split]].
  - intros Hno. apply code_is_ENOENT in Hno. rewrite Hcb, Hno. reflexivity.
  - intros Hother. rewrite Hcb.
    destruct (code_is t "ENOENT") eqn:Hc; [| reflexivity].
    apply code_is_ENOENT in Hc. contradiction.
  - intros paths valid Hin Hfilter.
    rewrite asyncFilter_spec in Hfilter.
    destruct (rejections (map (validCallback fs sourcePath) paths));
      [| discriminate].
    injection Hfilter as <-.
    rewrite filter_In. unfold keeps. rewrite Hcb, code_is_ENOENT. tauto.
  - intros paths rs r Hfilter Hr.
    rewrite asyncFilter_spec in Hfilter.
    destruct (rejections (map (validCallback fs sourcePath) paths)) eqn:Hrej;
      [discriminate |].
    injection Hfilter as <-. rewrite <- Hrej in Hr.
    apply rejections_In in Hr as (e' & Hin & Hthrow).
    exists e'. split; [exact Hin |].
    apply (validCallback_Throw _ _ _ _ Hthrow).
Qed.

(** In the sample tree the link [broken], whose [stat] fails with
    [ENOENT], is kept, and the link [locked], whose [stat] fails with
    [EACCES], is dropped without an error. *)
Lemma stat_failure_in_filter_witness :
  validCallback (Sample.tree Sample.entries) "/ws"
                (mkEntry "broken" DSymbolicLink (Some (mkStats 41471)))
  = Ok true
  /\ validCallback (Sample.tree Sample.entries) "/ws"
                   (mkEntry "locked" DSymbolicLink (Some (mkStats 41471)))
     = Ok false.
Proof.
  split.
  - apply (stat_failure_in_filter
             (Sample.tree Sample.entries) "/ws"
             (mkEntry "broken" DSymbolicLink (Some (mkStats 41471)))
             "/ws/broken" (Sample.systemError "ENOENT")
             eq_refl eq_refl eq_refl).
    eexists. split; reflexivity.
  - apply (stat_failure_in_filter
             (Sample.tree Sample.entries) "/ws"
             (mkEntry "locked" DSymbolicLink (Some (mkStats 41471)))
             "/ws/locked" (Sample.systemError "EACCES")
             eq_refl eq_refl eq_refl).
    intros (err & Heq & Hcode). injection Heq as <-. discriminate.
Defined.

(** ** What the serializer returns *)

Lemma materialize_Ok fs sourcePath e f :
  materialize fs sourcePath e = Ok f <-> recordOf fs sourcePath e f.
Proof.
  unfold materialize, readContent, recordOf.
  fold (readOf fs e).
  destruct (resolveSafeChildPath fs sourcePath (entry_path e)) as [abs | r];
    simpl.
  - destruct (readOf fs e abs) as [bytes | r] eqn:Hread; simpl; split.
    + intros H. injection H as <-. simpl.
      repeat split. exists abs. split; [reflexivity | exact Hread].
    + intros (Hp & Hs & Hx & abs' & Habs & Hread').
      injection Habs as <-. rewrite Hread in Hread'. injection Hread' as ->.
      destruct f; simpl in *. subst. reflexivity.
    + discriminate.
    + intros (_ & _ & _ & abs' & Habs & Hread').
      injection Habs as <-. congruence.
  - split; [discriminate |].
    intros (_ & _ & _ & abs' & Habs & _). discriminate.
Qed.



Lemma serializeEntries_spec fs sourcePath paths :
  serializeEntries fs sourcePath paths =
  match rejections (map (validCallback fs sourcePath) paths) with
  | [] => Promise_all (map (materialize fs sourcePath)
                           (filter (retained fs sourcePath) paths))
  | rs => Rejected rs
  end.
Proof.
  unfold serializeEntries. rewrite asyncFilter_spec.
  destruct (rejections (map (validCallback fs sourcePath) paths));
    [| reflexivity].
  rewrite (filter_ext _ _ (keeps_validCallback fs sourcePath)). reflexivity.
Qed.



(** The sample tree serializes to its two files and its dangling link. *)
Example serialize_sample_tree :
  serializeDirectoryContents (Sample.tree Sample.entries) "/ws" None
  = Fulfilled
      [ mkSerializedFile "README.md" (Sample.bytes "# readme")
                         (Some false) (Some false);
        mkSerializedFile "bin/run.sh" (Sample.bytes "#!/bin/sh")
                         (Some true) (Some false);
        mkSerializedFile "broken" (Sample.bytes "missing/target")
                         (Some true) (Some true) ].
Proof. reflexivity. Qed.

(** ** Paths stay within the root *)






(** The listing that climbs out of the root gives no list at all. *)
Example serialize_escaping_path :
  serializeDirectoryContents
    (Sample.tree
       (Sample.entries
          ++ [mkEntry "../etc/passwd" DFile (Some (mkStats 33188))]))
    "/ws" None
  = Rejected [Sample.notAllowed].
Proof. reflexivity. Qed.

(** ** Serializing an unchanged tree twice *)

Lemma sameDisk_validCallback fs1 fs2 sourcePath :
  sameDisk fs1 fs2 ->
  forall e, validCallback fs1 sourcePath e = validCallback fs2 sourcePath e.
Proof.
  intros (Hstat & _ & _ & Hres) e.
  unfold validCallback. rewrite Hres.
  destruct (resolveSafeChildPath fs2 sourcePath (entry_path e)); simpl;
    [rewrite Hstat |]; reflexivity.
Qed.

Lemma sameDisk_materialize fs1 fs2 sourcePath :
  sameDisk fs1 fs2 ->
  forall e, materialize fs1 sourcePath e = materialize fs2 sourcePath e.
Proof.
  intros (_ & Hlink & Hfile & Hres) e.
  unfold materialize, readContent. rewrite Hres.
  destruct (resolveSafeChildPath fs2 sourcePath (entry_path e)); simpl;
    [rewrite Hlink, Hfile |]; reflexivity.
Qed.

Lemma serializeEntries_Permutation fs sourcePath l l' :
  Permutation l l' ->
  sameOutcome (serializeEntries fs sourcePath l)
              (serializeEntries fs sourcePath l').
Proof.
  intros Hperm. rewrite !serializeEntries_spec.
  pose proof (rejections_Permutation (validCallback fs sourcePath) _ _ Hperm)
    as Hrej.
  destruct (rejections (map (validCallback fs sourcePath) l)) as [| r rs];
    destruct (rejections (map (validCallback fs sourcePath) l')) as [| r' rs'].
  - apply Promise_all_Permutation, filter_Permutation, Hperm.
  - apply Permutation_nil in Hrej. discriminate.
  - apply Permutation_sym, Permutation_nil in Hrej. discriminate.
  - exact Hrej.
Qed.

(** Claim C8.  Two runs over one state of the disk, whose listings hold
    the same entries in any order, settle alike: both fulfil, with the same
    records (path, content, executable and symlink flags) up to the order
    of the list, or both reject, with the same reasons. *)
Theorem serialize_unchanged_tree fs1 fs2 sourcePath options :
  sameDisk fs1 fs2 ->
  sameListing (listing fs1 sourcePath options) (listing fs2 sourcePath options) ->
  sameOutcome (serializeDirectoryContents fs1 sourcePath options)
              (serializeDirectoryContents fs2 sourcePath options).
Proof.
  intros Hdisk Hlist.
  rewrite !serializeDirectoryContents_listing.
  destruct (listing fs1 sourcePath options) as [l1 | e1];
    destruct (listing fs2 sourcePath options) as [l2 | e2];
    simpl in Hlist; try contradiction.
  - assert (serializeEntries fs1 sourcePath l1 = serializeEntries fs2 sourcePath l1)
      as ->.
    { unfold serializeEntries, asyncFilter.
      rewrite (map_ext _ _ (sameDisk_validCallback _ _ sourcePath Hdisk)).
      destruct (Promise_all (map (validCallback fs2 sourcePath) l1));
        [| reflexivity].
      rewrite (map_ext _ _ (sameDisk_materialize _ _ sourcePath Hdisk)).
      reflexivity. }
    apply serializeEntries_Permutation, Hlist.
  - subst e2. simpl. reflexivity.
Qed.

Lemma serialize_unchanged_tree_witness :
  sameOutcome
    (serializeDirectoryContents (Sample.tree Sample.entries) "/ws" None)
    (serializeDirectoryContents (Sample.tree (rev Sample.entries)) "/ws" None).
Proof.
  apply (serialize_unchanged_tree
           (Sample.tree Sample.entries) (Sample.tree (rev Sample.entries))
           "/ws" None).
  - repeat split.
  - apply Permutation_rev.
Defined.


(** * Further properties *)

(** ** Which missing parameter is reported *)

Lemma checkRequiredParams_firstMissing (u : URL) (ps : list string) :
  checkRequiredParams u ps =
  match firstMissing u ps with
  | Some p => Throw (InputError (missingMessage u p))
  | None => Ok tt
  end.
Proof.
  unfold firstMissing, given.
  induction ps as [| p ps IH]; simpl.
  - reflexivity.
  - destruct (truthy (get u p)); simpl; [exact IH | reflexivity].
Qed.

Lemma checkRequiredParams_app (u : URL) (ps qs : list string) :
  checkRequiredParams u (ps ++ qs) =
  checkRequiredParams u ps ;;; checkRequiredParams u qs.
Proof.
  induction ps as [| p ps IH]; simpl.
  - reflexivity.
  - destruct (truthy (get u p)); simpl; [exact IH | reflexivity].
Qed.

(** Property X1.  [checkRequiredParams] passes exactly when every listed
    parameter has a non-empty value; when it throws, the error is the
    [InputError] that names the first listed parameter without one, and
    every parameter listed before it has one. *)
Theorem checkRequiredParams_reports_first_missing (u : URL) (ps : list string) :
  (checkRequiredParams u ps = Ok tt <->
   Forall (fun p => given u p = true) ps)
  /\ (forall e,
         checkRequiredParams u ps = Throw e <->
         exists before p after,
           ps = (before ++ p :: after)%list
           /\ Forall (fun q => given u q = true) before
           /\ given u p = false
           /\ e = InputError (missingMessage u p)).
Proof.
  unfold given. induction ps as [| p ps [IHok IHthrow]]; simpl.
  - split.
    + split; [constructor | reflexivity].
    + intros e. split; [discriminate |].
      intros (before & q & after & Heq & _). destruct before; discriminate.
  - destruct (truthy (get u p)) eqn:Hp; simpl.
    + split.
      * rewrite IHok. split.
        -- intros Hall. constructor; assumption.
        -- intros Hall. inversion Hall; assumption.
      * intros e. rewrite IHthrow. split.
        -- intros (before & q & after & -> & Hall & Hq & ->).
           exists (p :: before), q, after.
           repeat split; try assumption. constructor; assumption.
        -- intros (before & q & after & Heq & Hall & Hq & ->).
           destruct before as [| b before]; simpl in Heq;
             injection Heq as <- ->.
           ++ congruence.
           ++ exists before, q, after. inversion Hall.
              repeat split; assumption.
    + split.
      * split; [discriminate |].
        intros Hall. inversion Hall. congruence.
      * intros e. split.
        -- intros H. injection H as <-. exists [], p, ps.
           repeat split; try exact Hp. constructor.
        -- intros (before & q & after & Heq & Hall & Hq & ->).
           destruct before as [| b before]; simpl in Heq;
             injection Heq as <- ->.
           ++ reflexivity.
           ++ inversion Hall. congruence.
Qed.

Lemma providerChecks_checkOrder (parsed : URL) (type : string) :
  providerChecks parsed (Some type) =
  checkRequiredParams parsed
    (checkOrder type (url_host parsed) (given parsed "project")).
Proof.
  unfold providerChecks, checkOrder, type_is, given.
  destruct (String.eqb type "bitbucket").
  { rewrite checkRequiredParams_app.
    destruct (String.eqb (url_host parsed) "www.bitbucket.org"); reflexivity. }
  destruct (String.eqb type "gitlab").
  { destruct (truthy (get parsed "project")); reflexivity. }
  destruct (String.eqb type "gerrit"); reflexivity.
Qed.

(** Property X2.  For a URL that parses and a host of a known provider
    type, [parseRepoUrl] checks the parameters in a fixed order (bitbucket:
    workspace on the public host, then project, then repo; gitlab without a
    project: owner, then repo; gerrit: repo; any other type: repo, then
    owner) and fails with the [InputError] that names the first one
    without a non-empty value; when there is none it returns the
    descriptor read off the query. *)
Theorem parseRepoUrl_check_order new_URL repoUrl integrations parsed i :
  new_URL ("https://" ++ repoUrl) = Ok parsed ->
  byHost integrations (url_host parsed) = Some i ->
  type i <> "" ->
  parseRepoUrl new_URL repoUrl integrations =
  match firstMissing parsed
          (checkOrder (type i) (url_host parsed) (given parsed "project"))
  with
  | Some p => Throw (InputError (missingMessage parsed p))
  | None => Ok (descriptorOf parsed)
  end.
Proof.
  intros Hurl Hhost Hty.
  rewrite (parseRepoUrl_unfold _ _ _ _ _ Hurl Hhost Hty).
  rewrite providerChecks_checkOrder, checkRequiredParams_firstMissing.
  destruct (firstMissing parsed _); reflexivity.
Qed.

(** On the public Bitbucket host a query with nothing but a repo is
    refused for its workspace, the first parameter checked. *)
Lemma parseRepoUrl_check_order_witness :
  parseRepoUrl SimpleURL.parse "www.bitbucket.org?repo=r" Sample.integrations
  = Throw (InputError
             "Invalid repo URL passed to publisher: https://www.bitbucket.org/?repo=r, missing workspace").
Proof.
  apply (parseRepoUrl_check_order
           SimpleURL.parse "www.bitbucket.org?repo=r" Sample.integrations
           (mkURL "www.bitbucket.org" "https://www.bitbucket.org/?repo=r"
              [("repo", "r")])
           (mkScmIntegration "bitbucket")
           eq_refl eq_refl ltac:(discriminate)).
Defined.

(** ** What a parsed descriptor guarantees *)

Lemma checkRequiredParams_Ok_given (u : URL) (ps : list string) :
  checkRequiredParams u ps = Ok tt ->
  Forall (fun p => given u p = true) ps.
Proof.
  unfold given. induction ps as [| p ps IH]; simpl.
  - constructor.
  - destruct (truthy (get u p)) eqn:Hp; simpl; [| discriminate].
    intros Hrest. constructor; [exact Hp | exact (IH Hrest)].
Qed.

Lemma checkRequiredParams_Throw_missing (u : URL) (ps : list string) e :
  checkRequiredParams u ps = Throw e ->
  exists p, In p ps /\ given u p = false
            /\ e = InputError (missingMessage u p).
Proof.
  unfold given. induction ps as [| p ps IH]; simpl.
  - discriminate.
  - destruct (truthy (get u p)) eqn:Hp; simpl.
    + intros Hrest. destruct (IH Hrest) as (q & Hin & Hq & He).
      exists q. auto.
    + intros H. injection H as <-. exists p. auto.
Qed.

Lemma parseRepoUrl_Ok_inv new_URL repoUrl integrations spec :
  parseRepoUrl new_URL repoUrl integrations = Ok spec ->
  exists parsed i,
    new_URL ("https://" ++ repoUrl) = Ok parsed
    /\ byHost integrations (url_host parsed) = Some i
    /\ type i <> ""
    /\ spec = descriptorOf parsed
    /\ Forall (fun p => given parsed p = true)
              (checkOrder (type i) (url_host parsed) (given parsed "project")).
Proof.
  intros Hparse.
  destruct (new_URL ("https://" ++ repoUrl)) as [parsed | err] eqn:Hurl.
  2: { unfold parseRepoUrl in Hparse. rewrite Hurl in Hparse. discriminate. }
  destruct (byHost integrations (url_host parsed)) as [i |] eqn:Hhost.
  2: { unfold parseRepoUrl in Hparse. rewrite Hurl, Hhost in Hparse.
       discriminate. }
  destruct (String.eqb_spec (type i) "") as [Hempty | Hty].
  { unfold parseRepoUrl in Hparse. rewrite Hurl, Hhost in Hparse.
    simpl in Hparse. rewrite Hempty in Hparse. discriminate. }
  rewrite (parseRepoUrl_unfold _ _ _ _ _ Hurl Hhost Hty) in Hparse.
  rewrite providerChecks_checkOrder in Hparse.
  destruct (checkRequiredParams parsed _) as [[] | e] eqn:Hchecks;
    [| discriminate].
  injection Hparse as <-.
  exists parsed, i. repeat split; try assumption.
  apply checkRequiredParams_Ok_given, Hchecks.
Qed.

(** Property X3.  A descriptor that [parseRepoUrl] returns is read off the
    query of a host with a known provider type.  Its repo is a non-empty
    string for every provider type but gitlab; on bitbucket its project is
    non-empty, and its workspace too on the public Bitbucket host; on
    gitlab its project is non-empty, or else its owner and repo are; for
    the remaining types other than gerrit its owner is non-empty. *)
Theorem parseRepoUrl_descriptor_fields new_URL repoUrl integrations spec :
  parseRepoUrl new_URL repoUrl integrations = Ok spec ->
  exists parsed i,
    new_URL ("https://" ++ repoUrl) = Ok parsed
    /\ spec = descriptorOf parsed
    /\ byHost integrations (host spec) = Some i
    /\ type i <> ""
    /\ (type i <> "gitlab" -> truthy (repo spec) = true)
    /\ (type i = "bitbucket" ->
        truthy (project spec) = true
        /\ (host spec = "www.bitbucket.org" ->
            truthy (workspace spec) = true))
    /\ (type i = "gitlab" ->
        truthy (project spec) = true
        \/ (truthy (owner spec) = true /\ truthy (repo spec) = true))
    /\ (type i <> "bitbucket" -> type i <> "gitlab" -> type i <> "gerrit" ->
        truthy (owner spec) = true).
Proof.
  intros Hparse.
  destruct (parseRepoUrl_Ok_inv _ _ _ _ Hparse)
    as (parsed & i & Hurl & Hhost & Hty & -> & Hall).
  exists parsed, i. simpl.
  split; [exact Hurl |]. split; [reflexivity |].
  split; [exact Hhost |]. split; [exact Hty |].
  unfold checkOrder, given in Hall.
  rewrite Forall_forall in Hall.
  destruct (String.eqb_spec (type i) "bitbucket") as [Hb | Hb].
  { assert (truthy (get parsed "project") = true) as Hp.
    { apply Hall, in_or_app. right. left. reflexivity. }
    assert (truthy (get parsed "repo") = true) as Hr.
    { apply Hall, in_or_app. right. right. left. reflexivity. }
    repeat split; try assumption; try congruence.
    intros Hpub. rewrite Hpub in Hall. apply Hall. left. reflexivity. }
  destruct (String.eqb_spec (type i) "gitlab") as [Hl | Hl].
  { repeat split; try congruence.
    intros _. destruct (truthy (get parsed "project")) eqn:Hp.
    - left. reflexivity.
    - right. split; apply Hall; simpl; auto. }
  destruct (String.eqb_spec (type i) "gerrit") as [Hg | Hg].
  { repeat split; try congruence.
    intros _. apply Hall. left. reflexivity. }
  repeat split; try congruence.
  - intros _. apply Hall. left. reflexivity.
  - intros _ _ _. apply Hall. right. left. reflexivity.
Qed.

Lemma parseRepoUrl_descriptor_fields_witness :
  exists parsed i,
    SimpleURL.parse "https://gerrit.example.com?repo=tools" = Ok parsed
    /\ mkRepoSpec (Some "tools") "gerrit.example.com" None None None None
       = descriptorOf parsed
    /\ byHost Sample.integrations "gerrit.example.com" = Some i
    /\ type i <> ""
    /\ (type i <> "gitlab" -> truthy (Some "tools") = true)
    /\ (type i = "bitbucket" ->
        truthy None = true
        /\ ("gerrit.example.com" = "www.bitbucket.org" -> truthy None = true))
    /\ (type i = "gitlab" ->
        truthy None = true
        \/ (truthy None = true /\ truthy (Some "tools") = true))
    /\ (type i <> "bitbucket" -> type i <> "gitlab" -> type i <> "gerrit" ->
        truthy None = true).
Proof.
  apply (parseRepoUrl_descriptor_fields
           SimpleURL.parse "gerrit.example.com?repo=tools" Sample.integrations
           (mkRepoSpec (Some "tools") "gerrit.example.com" None None None None)
           eq_refl).
Defined.

(** ** How [parseRepoUrl] fails *)

(** Property X4.  [parseRepoUrl] throws nothing but [InputError]s, of three
    kinds: the URL parser refused the string, and the message carries the
    string and the parser's error; the host has no integration with a
    non-empty type; or a parameter checked for the provider type has no
    non-empty value, and the message names it. *)
Theorem parseRepoUrl_failure_kinds new_URL repoUrl integrations e :
  parseRepoUrl new_URL repoUrl integrations = Throw e ->
  (exists err,
      new_URL ("https://" ++ repoUrl) = Throw err
      /\ e = InputError ("Invalid repo URL passed to publisher, got "
                         ++ repoUrl ++ ", " ++ Thrown_toString err))
  \/ (exists parsed,
         new_URL ("https://" ++ repoUrl) = Ok parsed
         /\ truthy (option_map type (byHost integrations (url_host parsed)))
            = false
         /\ e = InputError ("No matching integration configuration for host "
                            ++ url_host parsed
                            ++ ", please check your integrations config"))
  \/ (exists parsed i p,
         new_URL ("https://" ++ repoUrl) = Ok parsed
         /\ byHost integrations (url_host parsed) = Some i
         /\ In p (checkOrder (type i) (url_host parsed)
                             (given parsed "project"))
         /\ given parsed p = false
         /\ e = InputError (missingMessage parsed p)).
Proof.
  intros Hparse.
  destruct (new_URL ("https://" ++ repoUrl)) as [parsed | err] eqn:Hurl.
  2: { left. exists err. split; [reflexivity |].
       unfold parseRepoUrl in Hparse. rewrite Hurl in Hparse.
       injection Hparse as <-. reflexivity. }
  right.
  destruct (truthy (option_map type (byHost integrations (url_host parsed))))
    eqn:Htruthy.
  - right.
    destruct (byHost integrations (url_host parsed)) as [i |] eqn:Hhost;
      [| discriminate].
    assert (type i <> "") as Hty.
    { simpl in Htruthy. apply negb_true_iff, String.eqb_neq in Htruthy.
      exact Htruthy. }
    rewrite (parseRepoUrl_unfold _ _ _ _ _ Hurl Hhost Hty) in Hparse.
    rewrite providerChecks_checkOrder in Hparse.
    destruct (checkRequiredParams parsed _) as [[] | e'] eqn:Hchecks;
      [discriminate |].
    injection Hparse as <-.
    destruct (checkRequiredParams_Throw_missing _ _ _ Hchecks)
      as (p & Hin & Hp & He).
    exists parsed, i, p. auto.
  - left. exists parsed. split; [reflexivity |]. split; [exact Htruthy |].
    unfold parseRepoUrl in Hparse. rewrite Hurl, Htruthy in Hparse.
    injection Hparse as <-. reflexivity.
Qed.

(** A host that the registry does not know is refused whatever its
    query. *)
Lemma parseRepoUrl_failure_kinds_witness :
  (exists err,
      SimpleURL.parse "https://example.org?repo=x&owner=y" = Throw err
      /\ InputError "No matching integration configuration for host example.org, please check your integrations config"
         = InputError ("Invalid repo URL passed to publisher, got "
                       ++ "example.org?repo=x&owner=y" ++ ", "
                       ++ Thrown_toString err))
  \/ (exists parsed,
         SimpleURL.parse "https://example.org?repo=x&owner=y" = Ok parsed
         /\ truthy (option_map type
                      (byHost Sample.integrations (url_host parsed))) = false
         /\ InputError "No matching integration configuration for host example.org, please check your integrations config"
            = InputError ("No matching integration configuration for host "
                          ++ url_host parsed
                          ++ ", please check your integrations config"))
  \/ (exists parsed i p,
         SimpleURL.parse "https://example.org?repo=x&owner=y" = Ok parsed
         /\ byHost Sample.integrations (url_host parsed) = Some i
         /\ In p (checkOrder (type i) (url_host parsed)
                             (given parsed "project"))
         /\ given parsed p = false
         /\ InputError "No matching integration configuration for host example.org, please check your integrations config"
            = InputError (missingMessage parsed p)).
Proof.
  apply (parseRepoUrl_failure_kinds
           SimpleURL.parse "example.org?repo=x&owner=y" Sample.integrations
           (InputError "No matching integration configuration for host example.org, please check your integrations config")
           eq_refl).
Defined.

(** ** Octokit options from the credentials provider *)

Lemma asTruthy_Some (v : option string) (s : string) :
  asTruthy v = Some s -> v = Some s /\ s <> "".
Proof.
  destruct v as [s' |]; simpl; [| discriminate].
  destruct (String.eqb_spec s' ""); [discriminate |].
  intros H. injection H as <-. auto.
Qed.

Lemma getOctokitOptions_unfold new_URL fromIntegrations options spec o cfg :
  parseRepoUrl new_URL (arg_repoUrl options) (arg_integrations options)
  = Ok spec ->
  asTruthy (owner spec) = Some o ->
  github_byHost (arg_integrations options) (host spec) = Some cfg ->
  getOctokitOptions new_URL fromIntegrations options =
  match asTruthy (arg_token options) with
  | Some token =>
      ([], Ok (mkOctokitOptions token (apiBaseUrl cfg) ["nebula-preview"]
                 (Some (mkRequestOptions 60000))))
  | None =>
      (providerCalls options (credentialsUrl spec o),
       match getCredentials (chosenProvider fromIntegrations options)
                            (credentialsUrl spec o) with
       | Throw e => Throw e
       | Ok credentials =>
           match asTruthy (cred_token credentials) with
           | None =>
               Throw (InputError
                        ("No token available for host: " ++ host spec
                         ++ ", with owner " ++ o
                         ++ ", and repo " ++ ToString (repo spec)))
           | Some t =>
               Ok (mkOctokitOptions t (apiBaseUrl cfg) ["nebula-preview"] None)
           end
       end)
  end.
Proof.
  intros Hparse Howner Hcfg.
  unfold getOctokitOptions, providerCalls, chosenProvider, credentialsUrl.
  rewrite Hparse, Howner, Hcfg.
  destruct (asTruthy (arg_token options)); [reflexivity |].
  destruct (arg_credentialsProvider options); reflexivity.
Qed.

(** Property X5.  Without a usable token from the caller, and with the
    repo URL, the owner and the GitHub integration in order, the provider
    (the caller's, or else the default one, which is then built first) is
    asked exactly once, for [https://host/owner/repo] with owner and repo
    URI-encoded.  A non-empty token it yields becomes [auth], and the
    options carry no request timeout; an absent or empty token is an
    [InputError]; an error it throws is passed on as it is. *)
Theorem getOctokitOptions_asks_provider
        new_URL fromIntegrations options spec o cfg :
  asTruthy (arg_token options) = None ->
  parseRepoUrl new_URL (arg_repoUrl options) (arg_integrations options)
  = Ok spec ->
  asTruthy (owner spec) = Some o ->
  github_byHost (arg_integrations options) (host spec) = Some cfg ->
  fst (getOctokitOptions new_URL fromIntegrations options)
  = providerCalls options (credentialsUrl spec o)
  /\ (forall c t,
         getCredentials (chosenProvider fromIntegrations options)
                        (credentialsUrl spec o) = Ok c ->
         asTruthy (cred_token c) = Some t ->
         snd (getOctokitOptions new_URL fromIntegrations options)
         = Ok (mkOctokitOptions t (apiBaseUrl cfg) ["nebula-preview"] None))
  /\ (forall c,
         getCredentials (chosenProvider fromIntegrations options)
                        (credentialsUrl spec o) = Ok c ->
         asTruthy (cred_token c) = None ->
         exists msg,
           snd (getOctokitOptions new_URL fromIntegrations options)
           = Throw (InputError msg))
  /\ (forall e,
         getCredentials (chosenProvider fromIntegrations options)
                        (credentialsUrl spec o) = Throw e ->
         snd (getOctokitOptions new_URL fromIntegrations options) = Throw e).
Proof.
  intros Htok Hparse Howner Hcfg.
  rewrite (getOctokitOptions_unfold _ _ _ _ _ _ Hparse Howner Hcfg), Htok.
  simpl fst. simpl snd.
  split; [reflexivity |]. split; [| split].
  - intros c t -> ->. reflexivity.
  - intros c -> ->. eexists. reflexivity.
  - intros e ->. reflexivity.
Qed.

Lemma getOctokitOptions_asks_provider_witness :
  getOctokitOptions SimpleURL.parse (fun _ => Sample.provider)
    (mkArgs Sample.integrations None None "github.com?repo=my_repo&owner=acme")
  = ([EvFromIntegrations;
      EvGetCredentials "https://github.com/acme/my_repo"],
     Ok (mkOctokitOptions "app-token" (Some "https://api.github.com")
           ["nebula-preview"] None)).
Proof.
  pose proof (getOctokitOptions_asks_provider
                SimpleURL.parse (fun _ => Sample.provider)
                (mkArgs Sample.integrations None None
                        "github.com?repo=my_repo&owner=acme")
                (mkRepoSpec (Some "my_repo") "github.com" (Some "acme")
                            None None None)
                "acme"
                (mkGithubIntegrationConfig (Some "https://api.github.com"))
                eq_refl eq_refl eq_refl eq_refl) as (Htrace & Hok & _).
  specialize (Hok (mkGithubCredentials (Some "app-token")) "app-token"
                  eq_refl eq_refl).
  rewrite (surjective_pairing (getOctokitOptions _ _ _)), Htrace, Hok.
  reflexivity.
Defined.

(** ** What [getOctokitOptions] returns and how it fails *)

Lemma getOctokitOptions_cases new_URL fromIntegrations options :
  (exists msg,
      getOctokitOptions new_URL fromIntegrations options
      = ([], Throw (InputError msg))
      /\ forall spec,
          parseRepoUrl new_URL (arg_repoUrl options) (arg_integrations options)
          = Ok spec ->
          truthy (owner spec) = false
          \/ github_byHost (arg_integrations options) (host spec) = None)
  \/ (exists spec o cfg,
         parseRepoUrl new_URL (arg_repoUrl options) (arg_integrations options)
         = Ok spec
         /\ asTruthy (owner spec) = Some o
         /\ github_byHost (arg_integrations options) (host spec) = Some cfg).
Proof.
  destruct (parseRepoUrl new_URL (arg_repoUrl options) (arg_integrations options))
    as [spec | e] eqn:Hparse.
  - destruct (asTruthy (owner spec)) as [o |] eqn:Howner.
    + destruct (github_byHost (arg_integrations options) (host spec))
        as [cfg |] eqn:Hcfg.
      * right. exists spec, o, cfg. auto.
      * left. eexists. split.
        -- unfold getOctokitOptions. rewrite Hparse, Howner, Hcfg. reflexivity.
        -- intros spec' Hs. injection Hs as <-. right. exact Hcfg.
    + left. eexists. split.
      * unfold getOctokitOptions. rewrite Hparse, Howner. reflexivity.
      * intros spec' Hs. injection Hs as <-. left.
        rewrite truthy_asTruthy, Howner. reflexivity.
  - left. destruct (parseRepoUrl_throws_InputError _ _ _ _ Hparse) as (msg & ->).
    exists msg. split.
    + unfold getOctokitOptions. rewrite Hparse. reflexivity.
    + intros spec Hs. discriminate.
Qed.

(** Property X6.  Options that [getOctokitOptions] returns always hold a
    non-empty [auth], the [nebula-preview] preview and the API base URL of
    the GitHub integration of the parsed host, whose owner is non-empty.
    They carry the 60000 ms request timeout exactly when [auth] is the
    caller's token, and then nothing was asked of the credentials
    subsystem; otherwise they carry no request options. *)
Theorem getOctokitOptions_returned_options
        new_URL fromIntegrations options opts :
  snd (getOctokitOptions new_URL fromIntegrations options) = Ok opts ->
  auth opts <> ""
  /\ previews opts = ["nebula-preview"]
  /\ (exists spec cfg,
         parseRepoUrl new_URL (arg_repoUrl options) (arg_integrations options)
         = Ok spec
         /\ truthy (owner spec) = true
         /\ github_byHost (arg_integrations options) (host spec) = Some cfg
         /\ baseUrl opts = apiBaseUrl cfg)
  /\ ((arg_token options = Some (auth opts)
       /\ request opts = Some (mkRequestOptions 60000)
       /\ fst (getOctokitOptions new_URL fromIntegrations options) = [])
      \/ (asTruthy (arg_token options) = None /\ request opts = None)).
Proof.
  intros Hok.
  destruct (getOctokitOptions_cases new_URL fromIntegrations options)
    as [(msg & Hrun & _) | (spec & o & cfg & Hparse & Howner & Hcfg)].
  { rewrite Hrun in Hok. discriminate. }
  assert (truthy (owner spec) = true) as Htr
      by (rewrite truthy_asTruthy, Howner; reflexivity).
  rewrite (getOctokitOptions_unfold _ _ _ _ _ _ Hparse Howner Hcfg) in Hok |- *.
  destruct (asTruthy (arg_token options)) as [tok |] eqn:Htok.
  - simpl in Hok. injection Hok as <-. simpl.
    apply asTruthy_Some in Htok as [Htok Hne].
    split; [exact Hne |]. split; [reflexivity |]. split.
    + exists spec, cfg. auto.
    + left. auto.
  - simpl in Hok.
    destruct (getCredentials (chosenProvider fromIntegrations options)
                             (credentialsUrl spec o)) as [c | e];
      [| discriminate].
    destruct (asTruthy (cred_token c)) as [t |] eqn:Ht; [| discriminate].
    injection Hok as <-. simpl.
    apply asTruthy_Some in Ht as [_ Hne].
    split; [exact Hne |]. split; [reflexivity |]. split.
    + exists spec, cfg. auto.
    + right. auto.
Qed.

Lemma getOctokitOptions_returned_options_witness :
  "tok" <> ""
  /\ ["nebula-preview"] = ["nebula-preview"]
  /\ (exists spec cfg,
         parseRepoUrl SimpleURL.parse "github.com?repo=x&owner=y"
                      Sample.integrations = Ok spec
         /\ truthy (owner spec) = true
         /\ github_byHost Sample.integrations (host spec) = Some cfg
         /\ Some "https://api.github.com" = apiBaseUrl cfg)
  /\ ((Some "tok" = Some "tok"
       /\ Some (mkRequestOptions 60000) = Some (mkRequestOptions 60000)
       /\ fst (getOctokitOptions SimpleURL.parse (fun _ => Sample.provider)
                 (mkArgs Sample.integrations None (Some "tok")
                         "github.com?repo=x&owner=y")) = [])
      \/ (asTruthy (Some "tok") = None
          /\ Some (mkRequestOptions 60000) = None)).
Proof.
  apply (getOctokitOptions_returned_options
           SimpleURL.parse (fun _ => Sample.provider)
           (mkArgs Sample.integrations None (Some "tok")
                   "github.com?repo=x&owner=y")
           (mkOctokitOptions "tok" (Some "https://api.github.com")
              ["nebula-preview"] (Some (mkRequestOptions 60000)))
           eq_refl).
Defined.

(** Property X7.  When [getOctokitOptions] fails, the error is an
    [InputError] or the very error that the provider threw when it was
    asked; and when the repo URL does not parse, has no owner, or its host
    has no GitHub integration, the call fails with an [InputError] without
    anything being asked of the credentials subsystem, token or not. *)
Theorem getOctokitOptions_failure_kinds new_URL fromIntegrations options :
  (forall e,
      snd (getOctokitOptions new_URL fromIntegrations options) = Throw e ->
      (exists msg, e = InputError msg)
      \/ (exists url,
             In (EvGetCredentials url)
                (fst (getOctokitOptions new_URL fromIntegrations options))
             /\ getCredentials (chosenProvider fromIntegrations options) url
                = Throw e))
  /\ ((forall spec,
          parseRepoUrl new_URL (arg_repoUrl options) (arg_integrations options)
          = Ok spec ->
          truthy (owner spec) = false
          \/ github_byHost (arg_integrations options) (host spec) = None) ->
      exists msg,
        getOctokitOptions new_URL fromIntegrations options
        = ([], Throw (InputError msg))).
Proof.
  destruct (getOctokitOptions_cases new_URL fromIntegrations options)
    as [(msg & Hrun & Hwhy) | (spec & o & cfg & Hparse & Howner & Hcfg)].
  - split.
    + intros e He. rewrite Hrun in He. injection He as <-.
      left. exists msg. reflexivity.
    + intros _. exists msg. exact Hrun.
  - split.
    + rewrite (getOctokitOptions_unfold _ _ _ _ _ _ Hparse Howner Hcfg).
      intros e He.
      destruct (asTruthy (arg_token options)); [discriminate |].
      simpl in He. simpl fst.
      destruct (getCredentials (chosenProvider fromIntegrations options)
                               (credentialsUrl spec o)) as [c | e'] eqn:Hget.
      * destruct (asTruthy (cred_token c)); [discriminate |].
        injection He as <-. left. eexists. reflexivity.
      * injection He as <-. right. exists (credentialsUrl spec o).
        split; [| exact Hget].
        unfold providerCalls. apply in_or_app. right. left. reflexivity.
    + intros Hno. exfalso. destruct (Hno spec Hparse) as [Ho | Hc].
      * rewrite truthy_asTruthy, Howner in Ho. discriminate.
      * rewrite Hcfg in Hc. discriminate.
Qed.

(** ** The bits that decide [isExecutable] *)

Lemma isExecutable_land (m : Z) :
  isExecutable (Some m) = (Z.land m 73 >? 0).
Proof.
  unfold isExecutable. rewrite land_mask_ToInt32.
  destruct (Z.eqb_spec m 0) as [-> | _]; reflexivity.
Qed.

(** Property X8.  [isExecutable] looks at nothing but the three execute
    bits: two modes that agree under the mask [0o111] get the same answer,
    whatever their file-type, read, write and higher bits. *)
Theorem isExecutable_mask_only (m m' : Z) :
  Z.land m 73 = Z.land m' 73 ->
  isExecutable (Some m) = isExecutable (Some m').
Proof.
  intros Hmask. rewrite !isExecutable_land, Hmask. reflexivity.
Qed.

(** The regular file mode [0o100755] and the bare permissions [0o755]. *)
Lemma isExecutable_mask_only_witness :
  isExecutable (Some 33261) = isExecutable (Some 493).
Proof.
  apply (isExecutable_mask_only 33261 493). reflexivity.
Defined.

(** ** [asyncFilter] as a filter *)

(** Property X9.  [asyncFilter] fulfils exactly when no callback throws,
    and then with the elements whose callback answered [true], in the
    order of the array; when it rejects, the candidate reasons are exactly
    what the callbacks threw. *)
Theorem asyncFilter_like_filter {T} (array : list T)
        (callback : T -> result bool) :
  (forall l,
      asyncFilter array callback = Fulfilled l <->
      (forall x, In x array -> exists b, callback x = Ok b)
      /\ l = filter (keeps callback) array)
  /\ (forall rs,
         asyncFilter array callback = Rejected rs ->
         rs <> []
         /\ forall r, In r rs <-> exists x, In x array /\ callback x = Throw r).
Proof.
  rewrite asyncFilter_spec. split.
  - intros l. split.
    + intros Hful.
      destruct (rejections (map callback array)) as [| r rs] eqn:Hrej;
        [| discriminate].
      injection Hful as <-. split; [| reflexivity].
      intros x Hin. destruct (callback x) as [b | r] eqn:Hcb.
      * exists b. reflexivity.
      * assert (In r (rejections (map callback array))) as Hbad
            by (apply rejections_In; exists x; auto).
        rewrite Hrej in Hbad. destruct Hbad.
    + intros [Hall ->]. rewrite (rejections_nil _ _ Hall). reflexivity.
  - intros rs Hrej.
    destruct (rejections (map callback array)) as [| r0 rs0] eqn:Heq;
      [discriminate |].
    injection Hrej as <-. split; [discriminate |].
    intros r. rewrite <- Heq. apply rejections_In.
Qed.

(** ** The records of a fulfilled run *)

Lemma serializeEntries_Fulfilled fs sourcePath paths files :
  serializeEntries fs sourcePath paths = Fulfilled files ->
  rejections (map (validCallback fs sourcePath) paths) = []
  /\ Forall2 (recordOf fs sourcePath)
             (filter (retained fs sourcePath) paths) files.
Proof.
  rewrite serializeEntries_spec.
  destruct (rejections (map (validCallback fs sourcePath) paths)) as [| r rs];
    [| discriminate].
  intros Hall. split; [reflexivity |].
  destruct (Promise_all_inv
              (map (materialize fs sourcePath)
                   (filter (retained fs sourcePath) paths)))
    as [(l & Hl & Hnil & ->) | (rs & Hrs & _)];
    rewrite Hall in *; [| discriminate].
  injection Hl as ->.
  eapply Forall2_impl; [| apply (fulfilments_Forall2 _ _ Hnil)].
  intros e f Hm. apply materialize_Ok, Hm.
Qed.

(** Property X10.  Whenever [serializeDirectoryContents] fulfils, its
    list holds, in the order of the listing, exactly one record for each
    listed entry that is neither a directory nor a symbolic link and for
    each symbolic link whose [stat] failed with [ENOENT], every record
    being the one of its entry (path, bytes read at the resolved path,
    executable and symlink flags). *)
Theorem serialize_fulfilled_records fs sourcePath options paths files :
  listing fs sourcePath options = Ok paths ->
  serializeDirectoryContents fs sourcePath options = Fulfilled files ->
  Forall2 (recordOf fs sourcePath)
          (filter (retained fs sourcePath) paths) files.
Proof.
  intros Hlist Hful.
  rewrite serializeDirectoryContents_listing, Hlist in Hful.
  apply (serializeEntries_Fulfilled _ _ _ _ Hful).
Qed.

Lemma serialize_fulfilled_records_witness :
  Forall2 (recordOf (Sample.tree Sample.entries) "/ws")
          (filter (retained (Sample.tree Sample.entries) "/ws") Sample.entries)
          [ mkSerializedFile "README.md" (Sample.bytes "# readme")
                             (Some false) (Some false);
            mkSerializedFile "bin/run.sh" (Sample.bytes "#!/bin/sh")
                             (Some true) (Some false);
            mkSerializedFile "broken" (Sample.bytes "missing/target")
                             (Some true) (Some true) ].
Proof.
  apply (serialize_fulfilled_records
           (Sample.tree Sample.entries) "/ws" None Sample.entries _
           eq_refl eq_refl).
Defined.

Lemma Forall2_map_eq {A B C} (f : A -> C) (g : B -> C) (R : A -> B -> Prop)
      (l : list A) (l' : list B) :
  (forall x y, R x y -> g y = f x) ->
  Forall2 R l l' -> map g l' = map f l.
Proof.
  intros HR. induction 1 as [| x y l l' Hxy _ IH]; simpl.
  - reflexivity.
  - rewrite (HR _ _ Hxy), IH. reflexivity.
Qed.

Lemma distinct_keys_after_filter {A B} (key : A -> B) (keep : A -> bool)
      (xs : list A) (Hdistinct : NoDup (map key xs)) :
  NoDup (map key (filter keep xs)).
Proof.
  induction xs as [| x xs IH]; simpl in *.
  - constructor.
  - inversion Hdistinct as [| ? ? Hnotin Hrest]; subst.
    destruct (keep x); simpl; [| exact (IH Hrest)].
    constructor; [| exact (IH Hrest)].
    intros Hin. apply Hnotin.
    apply in_map_iff in Hin as (y & Hfy & Hy).
    apply filter_In in Hy as [Hy _].
    apply in_map_iff. exists y. auto.
Qed.

(** Property X11.  The paths returned are the paths of the retained
    entries, in order: the list is never longer than the listing, and when
    the listing names no path twice, no two records share a path. *)
Theorem serialize_paths_distinct fs sourcePath options paths files :
  listing fs sourcePath options = Ok paths ->
  serializeDirectoryContents fs sourcePath options = Fulfilled files ->
  map path files = map entry_path (filter (retained fs sourcePath) paths)
  /\ (List.length files <= List.length paths)%nat
  /\ (NoDup (map entry_path paths) -> NoDup (map path files)).
Proof.
  intros Hlist Hful.
  rewrite serializeDirectoryContents_listing, Hlist in Hful.
  destruct (serializeEntries_Fulfilled _ _ _ _ Hful) as [_ Hrec].
  assert (map path files
          = map entry_path (filter (retained fs sourcePath) paths)) as Hpaths.
  { apply (Forall2_map_eq _ _ _ _ _ (fun e f (H : recordOf fs sourcePath e f) =>
                                       proj1 H) Hrec). }
  split; [exact Hpaths |]. split.
  - rewrite <- (length_map path files), Hpaths, length_map.
    apply filter_length_le.
  - intros Hnd. rewrite Hpaths. apply distinct_keys_after_filter, Hnd.
Qed.

Lemma serialize_paths_distinct_witness :
  map path
      [ mkSerializedFile "README.md" (Sample.bytes "# readme")
                         (Some false) (Some false);
        mkSerializedFile "bin/run.sh" (Sample.bytes "#!/bin/sh")
                         (Some true) (Some false);
        mkSerializedFile "broken" (Sample.bytes "missing/target")
                         (Some true) (Some true) ]
  = map entry_path
        (filter (retained (Sample.tree Sample.entries) "/ws") Sample.entries)
  /\ (3 <= List.length Sample.entries)%nat
  /\ (NoDup (map entry_path Sample.entries) ->
      NoDup ["README.md"; "bin/run.sh"; "broken"]).
Proof.
  apply (serialize_paths_distinct
           (Sample.tree Sample.entries) "/ws" None Sample.entries
           [ mkSerializedFile "README.md" (Sample.bytes "# readme")
                              (Some false) (Some false);
             mkSerializedFile "bin/run.sh" (Sample.bytes "#!/bin/sh")
                              (Some true) (Some false);
             mkSerializedFile "broken" (Sample.bytes "missing/target")
                              (Some true) (Some true) ]
           eq_refl eq_refl).
Defined.

(** ** Directories, failed reads and joined listings *)

Lemma serialize_relist fs sourcePath options paths :
  serializeDirectoryContents (relist fs paths) sourcePath options
  = serializeEntries fs sourcePath paths.
Proof. reflexivity. Qed.

Lemma rejections_app {A} (ps qs : list (result A)) :
  rejections (ps ++ qs) = (rejections ps ++ rejections qs)%list.
Proof.
  induction ps as [| [a | e] ps IH]; simpl; [| | rewrite IH]; auto.
Qed.

Lemma fulfilments_app {A} (ps qs : list (result A)) :
  fulfilments (ps ++ qs) = (fulfilments ps ++ fulfilments qs)%list.
Proof.
  induction ps as [| [a | e] ps IH]; simpl; [| rewrite IH |]; auto.
Qed.

Lemma rejections_notDirectory fs sourcePath paths :
  rejections (map (validCallback fs sourcePath) (filter notDirectory paths))
  = rejections (map (validCallback fs sourcePath) paths).
Proof.
  induction paths as [| e paths IH]; simpl.
  - reflexivity.
  - unfold notDirectory at 1.
    destruct (isDirectory (dirent e)) eqn:Hdir; simpl.
    + unfold validCallback at 2. rewrite Hdir. exact IH.
    + destruct (validCallback fs sourcePath e); rewrite IH; reflexivity.
Qed.

Lemma retained_notDirectory fs sourcePath paths :
  filter (retained fs sourcePath) (filter notDirectory paths)
  = filter (retained fs sourcePath) paths.
Proof.
  induction paths as [| e paths IH]; simpl.
  - reflexivity.
  - unfold notDirectory at 1.
    destruct (isDirectory (dirent e)) eqn:Hdir; simpl.
    + assert (retained fs sourcePath e = false) as ->.
      { unfold retained. destruct (dirent e); try discriminate. reflexivity. }
      exact IH.
    + rewrite IH. reflexivity.
Qed.

(** Property X12.  Directory entries of the listing have no effect at all
    on the outcome: their paths are never resolved, so even a directory
    whose path would not resolve changes neither the records nor the
    reasons of a rejection. *)
Theorem serialize_ignores_directories fs sourcePath options paths :
  serializeDirectoryContents (relist fs paths) sourcePath options
  = serializeDirectoryContents (relist fs (filter notDirectory paths))
                               sourcePath options.
Proof.
  rewrite !serialize_relist, !serializeEntries_spec.
  rewrite rejections_notDirectory, retained_notDirectory. reflexivity.
Qed.

(** Property X13.  A failed read aborts the whole run: when the read of a
    retained entry fails, the call rejects and returns no list, and the
    error of the read is among the reasons unless the filter phase has
    already rejected for a symbolic link whose path does not resolve. *)
Theorem serialize_read_failure_aborts
        fs sourcePath options paths e abs r :
  listing fs sourcePath options = Ok paths ->
  In e paths ->
  retained fs sourcePath e = true ->
  resolveSafeChildPath fs sourcePath (entry_path e) = Ok abs ->
  readOf fs e abs = Throw r ->
  exists rs,
    serializeDirectoryContents fs sourcePath options = Rejected rs
    /\ rs <> []
    /\ ((forall e', In e' paths -> dirent e' = DSymbolicLink ->
                    exists abs',
                      resolveSafeChildPath fs sourcePath (entry_path e')
                      = Ok abs') ->
        In r rs).
Proof.
  intros Hlist Hin Hret Habs Hread.
  rewrite serializeDirectoryContents_listing, Hlist, serializeEntries_spec.
  assert (materialize fs sourcePath e = Throw r) as Hm.
  { unfold materialize, readContent. rewrite Habs. simpl.
    unfold readOf in Hread. rewrite Hread. reflexivity. }
  assert (In r (rejections (map (materialize fs sourcePath)
                                (filter (retained fs sourcePath) paths))))
    as Hr.
  { apply rejections_In. exists e. split; [| exact Hm].
    apply filter_In. auto. }
  destruct (rejections (map (validCallback fs sourcePath) paths))
    as [| r0 rs0] eqn:Hrej.
  - rewrite Promise_all_rejected.
    + eexists. split; [reflexivity |]. split.
      * intros Hnil. rewrite Hnil in Hr. destruct Hr.
      * intros _. exact Hr.
    + intros Hnil. rewrite Hnil in Hr. destruct Hr.
  - exists (r0 :: rs0). split; [reflexivity |]. split; [discriminate |].
    intros Hsafe. exfalso.
    assert (In r0 (rejections (map (validCallback fs sourcePath) paths)))
      as Hbad by (rewrite Hrej; left; reflexivity).
    apply rejections_In in Hbad as (e' & Hin' & Hcb).
    apply validCallback_Throw in Hcb as [Hlink Hthrow].
    destruct (Hsafe e' Hin' Hlink) as (abs' & Habs'). congruence.
Qed.

(** A listed file that is gone when it is read makes the run reject with
    the error of the read. *)
Lemma serialize_read_failure_aborts_witness :
  exists rs,
    serializeDirectoryContents
      (Sample.tree
         (Sample.entries ++ [mkEntry "gone.txt" DFile (Some (mkStats 33188))]))
      "/ws" None
    = Rejected rs
    /\ rs <> []
    /\ ((forall e',
            In e' (Sample.entries
                     ++ [mkEntry "gone.txt" DFile (Some (mkStats 33188))]) ->
            dirent e' = DSymbolicLink ->
            exists abs', Sample.resolve "/ws" (entry_path e') = Ok abs') ->
        In (Sample.systemError "ENOENT") rs).
Proof.
  apply (serialize_read_failure_aborts
           (Sample.tree
              (Sample.entries
                 ++ [mkEntry "gone.txt" DFile (Some (mkStats 33188))]))
           "/ws" None
           (Sample.entries ++ [mkEntry "gone.txt" DFile (Some (mkStats 33188))])
           (mkEntry "gone.txt" DFile (Some (mkStats 33188)))
           "/ws/gone.txt" (Sample.systemError "ENOENT") eq_refl).
  - apply in_or_app. right. left. reflexivity.
  - reflexivity.
  - reflexivity.
  - reflexivity.
Defined.

(** Property X14.  Serializing a listing made of two parts fulfils exactly
    when serializing each part fulfils, and then with the records of the
    first part followed by the records of the second. *)
Theorem serialize_joined_listing fs sourcePath options paths1 paths2 files :
  serializeDirectoryContents (relist fs (paths1 ++ paths2)) sourcePath options
  = Fulfilled files
  <->
  exists files1 files2,
    serializeDirectoryContents (relist fs paths1) sourcePath options
    = Fulfilled files1
    /\ serializeDirectoryContents (relist fs paths2) sourcePath options
       = Fulfilled files2
    /\ files = (files1 ++ files2)%list.
Proof.
  rewrite !serialize_relist, !serializeEntries_spec.
  rewrite map_app, rejections_app, filter_app, map_app.
  unfold Promise_all. rewrite rejections_app, fulfilments_app.
  destruct (rejections (map (validCallback fs sourcePath) paths1))
    as [| r1 rs1]; simpl.
  2: { split; [discriminate |]. intros (f1 & f2 & H & _). discriminate. }
  destruct (rejections (map (validCallback fs sourcePath) paths2))
    as [| r2 rs2].
  2: { split; [discriminate |]. intros (f1 & f2 & _ & H & _). discriminate. }
  destruct (rejections (map (materialize fs sourcePath)
                            (filter (retained fs sourcePath) paths1)))
    as [| m1 ms1]; simpl.
  2: { split; [discriminate |]. intros (f1 & f2 & H & _). discriminate. }
  destruct (rejections (map (materialize fs sourcePath)
                            (filter (retained fs sourcePath) paths2)))
    as [| m2 ms2].
  2: { split; [discriminate |]. intros (f1 & f2 & _ & H & _). discriminate. }
  split.
  - intros H. injection H as <-. eexists. eexists.
    split; [reflexivity |]. split; reflexivity.
  - intros (f1 & f2 & H1 & H2 & ->).
    injection H1 as <-. injection H2 as <-. reflexivity.
Qed.

(** ** The workflow writer *)

(** Property X16.  The handler of the workflow action first writes its log
    line, then resolves [.gitub/worflows/test.yaml] within the workspace.
    It writes at most one file, only at the path that the resolution
    returned, with the YAML of the fixed workflow; when the resolution
    throws, nothing is written and the error is passed on; and the
    [repoUrl] input plays no part. *)
Theorem handler_writes_one_resolved_file (env : WorkflowEnv)
        (ctx : HandlerContext) :
  (exists rest,
      fst (handler env ctx) = LogWrite "Writing catalog-info.yaml" :: rest)
  /\ (List.length (fileWrites (fst (handler env ctx))) <= 1)%nat
  /\ (forall file data,
         In (file, data) (fileWrites (fst (handler env ctx))) ->
         wf_resolveSafeChildPath env (workspacePath ctx)
                                 ".gitub/worflows/test.yaml" = Ok file
         /\ data = yaml_stringify env defaultWorkflow)
  /\ (forall e,
         wf_resolveSafeChildPath env (workspacePath ctx)
                                 ".gitub/worflows/test.yaml" = Throw e ->
         fileWrites (fst (handler env ctx)) = []
         /\ snd (handler env ctx) = Throw e)
  /\ (forall file,
         wf_resolveSafeChildPath env (workspacePath ctx)
                                 ".gitub/worflows/test.yaml" = Ok file ->
         fileWrites (fst (handler env ctx))
         = [(file, yaml_stringify env defaultWorkflow)]
         /\ snd (handler env ctx)
            = fs_writeFile env file (yaml_stringify env defaultWorkflow))
  /\ (forall repoUrl,
         handler env (mkHandlerContext (workspacePath ctx) repoUrl)
         = handler env ctx).
Proof.
  unfold handler. simpl workspacePath.
  destruct (wf_resolveSafeChildPath env (workspacePath ctx)
                                    ".gitub/worflows/test.yaml")
    as [file | e]; simpl.
  - split; [eexists; reflexivity |]. split; [lia |]. split.
    + intros file' data [Heq | []]. injection Heq as <- <-. auto.
    + split; [discriminate |]. split; [| reflexivity].
      intros file' Heq. injection Heq as <-. auto.
  - split; [eexists; reflexivity |]. split; [lia |]. split.
    + intros file data [].
    + split.
      * intros e' Heq. injection Heq as <-. auto.
      * split; [discriminate | reflexivity].
Qed.
